(** * The LZ4 plugin of Squash (plugins/lz4/squash-lz4.c)

    A shallow embedding of the adapter and the properties of its
    specification.  The adapter is a handful of forwarding functions: the C
    integer conversions it performs, the assertions it makes and the calls it
    issues to the LZ4 library and to the allocator are all kept explicit.

    Platform: the LP64 data model (int is 32 bits, long and size_t are 64
    bits), with conversions to a narrower signed type wrapping around, as
    every mainstream compiler implements them. *)

From Stdlib Require Import ZArith List String Ascii Bool Lia.
From Stdlib Require Import Strings.Byte.
Import ListNotations.

Local Open Scope Z_scope.

(** ** C integer types *)

Module CInt.

Definition INT_MIN : Z := -2147483648.
Definition INT_MAX : Z := 2147483647.
Definition LONG_MIN : Z := -9223372036854775808.
Definition LONG_MAX : Z := 9223372036854775807.
Definition SIZE_MAX : Z := 18446744073709551615.

(** The conversion [(int) z]: reduction modulo 2^32 into the signed range. *)
Definition to_int (z : Z) : Z := (z + 2147483648) mod 4294967296 - 2147483648.

(** The conversion [(size_t) z]: reduction modulo 2^64. *)
Definition to_size_t (z : Z) : Z := z mod 18446744073709551616.

(** The conversion [(unsigned int) z]. *)
Definition to_uint (z : Z) : Z := z mod 4294967296.

Definition is_int (z : Z) : Prop := INT_MIN <= z <= INT_MAX.
Definition is_size_t (z : Z) : Prop := 0 <= z <= SIZE_MAX.

End CInt.
Import CInt.

(** ** Status codes (squash/status.h), the ones this file returns *)

Inductive SquashStatus : Type :=
| SQUASH_OK
| SQUASH_FAILED
| SQUASH_UNABLE_TO_LOAD
| SQUASH_BAD_PARAM
| SQUASH_BAD_VALUE
| SQUASH_BUFFER_FULL.

(** ** Calls that leave the adapter

    Every compression primitive takes the source pointer and the sizes it was
    given, and answers with its int result and the bytes it stored at the
    destination pointer. *)

Inductive lz4_call : Type :=
| LZ4_decompress_safe (source : list byte) (compressedSize maxDecompressedSize : Z)
| LZ4_compress_limitedOutput (source : list byte) (inputSize maxOutputSize : Z)
| LZ4_compressHC_limitedOutput (source : list byte) (inputSize maxOutputSize : Z)
| LZ4_compress (source : list byte) (inputSize : Z)
| LZ4_compressHC (source : list byte) (inputSize : Z).

(** Programs of the adapter: they return, trip an [assert], call an LZ4
    primitive, or call [malloc] (answered by [true] when a block was obtained
    and by [false] when the null pointer came back). *)
Inductive prog (A : Type) : Type :=
| Ret (a : A)
| AssertFail
| Lz4 (c : lz4_call) (k : Z * list byte -> prog A)
| Malloc (k : bool -> prog A).

Arguments Ret {A} a.
Arguments AssertFail {A}.
Arguments Lz4 {A} c k.
Arguments Malloc {A} k.

Fixpoint bind {A B : Type} (p : prog A) (f : A -> prog B) : prog B :=
  match p with
  | Ret a => f a
  | AssertFail => AssertFail
  | Lz4 c k => Lz4 c (fun r => bind (k r) f)
  | Malloc k => Malloc (fun b => bind (k b) f)
  end.

Notation "x <- p ;; q" := (bind p (fun x => q))
  (at level 61, p at next level, right associativity).

Definition call (c : lz4_call) : prog (Z * list byte) := Lz4 c Ret.
Definition malloc : prog bool := Malloc Ret.
Definition c_assert (b : bool) : prog unit := if b then Ret tt else AssertFail.

(** The world around the adapter: what each LZ4 primitive answers, and
    whether the allocator finds memory. *)
Record world : Type := {
  lz4 : lz4_call -> Z * list byte;
  malloc_ok : bool
}.

Inductive outcome (A : Type) : Type :=
| Returned (a : A)
| Aborted.

Arguments Returned {A} a.
Arguments Aborted {A}.

Fixpoint run {A : Type} (w : world) (p : prog A) : outcome A :=
  match p with
  | Ret a => Returned a
  | AssertFail => Aborted
  | Lz4 c k => run w (k (lz4 w c))
  | Malloc k => run w (k (malloc_ok w))
  end.

(** The LZ4 primitives a program invokes, in order. *)
Fixpoint calls {A : Type} (w : world) (p : prog A) : list lz4_call :=
  match p with
  | Ret _ => []
  | AssertFail => []
  | Lz4 c k => c :: calls w (k (lz4 w c))
  | Malloc k => calls w (k (malloc_ok w))
  end.

(** ** C strings and the libc functions the adapter uses

    A C string is modelled by the characters before its terminator. *)

Module LibC.

Definition code (c : ascii) : Z := Z.of_N (N_of_ascii c).

Definition tolower (c : ascii) : ascii :=
  if (65 <=? code c) && (code c <=? 90)
  then ascii_of_N (N_of_ascii c + 32)
  else c.

(** [strcmp]: the difference of the first two characters that differ, the
    terminator counting as 0. *)
Fixpoint strcmp (a b : string) : Z :=
  match a, b with
  | EmptyString, EmptyString => 0
  | EmptyString, String y _ => 0 - code y
  | String x _, EmptyString => code x - 0
  | String x a', String y b' =>
      if code x =? code y then strcmp a' b' else code x - code y
  end.

(** [strcasecmp]: [strcmp] on the lower-cased characters. *)
Fixpoint strcasecmp (a b : string) : Z :=
  match a, b with
  | EmptyString, EmptyString => 0
  | EmptyString, String y _ => 0 - code (tolower y)
  | String x _, EmptyString => code (tolower x) - 0
  | String x a', String y b' =>
      if code (tolower x) =? code (tolower y)
      then strcasecmp a' b'
      else code (tolower x) - code (tolower y)
  end.

Fixpoint lowercase (s : string) : string :=
  match s with
  | EmptyString => EmptyString
  | String c s' => String (tolower c) (lowercase s')
  end.

Definition isspace (c : ascii) : bool :=
  (code c =? 32) || ((9 <=? code c) && (code c <=? 13)).

(** The value of a character as a digit, letters standing for 10 to 35. *)
Definition digit_value (c : ascii) : option Z :=
  let n := code c in
  if (48 <=? n) && (n <=? 57) then Some (n - 48)
  else if (97 <=? n) && (n <=? 122) then Some (n - 87)
  else if (65 <=? n) && (n <=? 90) then Some (n - 55)
  else None.

Definition is_digit (base : Z) (c : ascii) : bool :=
  match digit_value c with
  | Some d => d <? base
  | None => false
  end.

Fixpoint skip_space (s : string) : string :=
  match s with
  | String c s' => if isspace c then skip_space s' else s
  | EmptyString => s
  end.

(** The longest run of digits of [base] at the head of [s]: its value, the
    number of digits, and what follows. *)
Fixpoint scan_digits (base acc : Z) (count : nat) (s : string) : Z * nat * string :=
  match s with
  | String c s' =>
      match digit_value c with
      | Some d =>
          if d <? base then scan_digits base (acc * base + d) (S count) s'
          else (acc, count, s)
      | None => (acc, count, s)
      end
  | EmptyString => (acc, count, s)
  end.

Definition clamp_long (z : Z) : Z :=
  if z <? LONG_MIN then LONG_MIN
  else if LONG_MAX <? z then LONG_MAX
  else z.

(** [strtol (nptr, &endptr, base)] for base 0 or 2..36 (ISO C 7.22.1.4):
    white space, an optional sign, an optional 0x prefix when the base is 0
    or 16, then digits; the result saturates at LONG_MIN and LONG_MAX, and
    when no digit is found the result is 0 and [endptr] is [nptr].  The second
    component is the string [endptr] points to. *)
Definition strtol (nptr : string) (base : Z) : Z * string :=
  let s1 := skip_space nptr in
  let '(neg, s2) :=
    match s1 with
    | String "-"%char r => (true, r)
    | String "+"%char r => (false, r)
    | _ => (false, s1)
    end in
  let '(b, s3) :=
    match s2 with
    | String "0"%char (String x (String d r)) =>
        if ((base =? 0) || (base =? 16))
             && ((code x =? 120) || (code x =? 88)) && is_digit 16 d
        then (16, String d r)
        else (if base =? 0 then 8 else base, s2)
    | String "0"%char _ => (if base =? 0 then 8 else base, s2)
    | _ => (if base =? 0 then 10 else base, s2)
    end in
  let '(mag, count, rest) := scan_digits b 0 0 s3 in
  match count with
  | O => (0, nptr)
  | S _ => (clamp_long (if neg then - mag else mag), rest)
  end.

(** The strings of C hold no NUL character. *)
Fixpoint c_string (s : string) : bool :=
  match s with
  | EmptyString => true
  | String c s' => negb (code c =? 0) && c_string s'
  end.

(** [*endptr == '\0'] *)
Definition at_terminator (endptr : string) : bool :=
  match endptr with
  | EmptyString => true
  | String _ _ => false
  end.

End LibC.
Import LibC.

(** ** Host objects (squash/squash.h) *)

(** Modelled from the spec: [SquashCodec] and [squash_codec_get_name] belong
    to the host library and are not part of this file; of a codec the adapter
    only ever asks the name it was registered under. *)
Record SquashCodec : Type := {
  codec_name : string
}.

Definition squash_codec_get_name (codec : SquashCodec) : string :=
  codec_name codec.

(** The destroy callbacks this file hands to the host. *)
Inductive SquashDestroyNotify : Type :=
| squash_lz4_options_free.

(** Modelled from the spec: [SquashOptions] and [squash_options_init] belong
    to the host library; the base object records the codec the options are
    for and the callback that releases them. *)
Record SquashOptions : Type := {
  options_codec : SquashCodec;
  options_destroy_notify : SquashDestroyNotify
}.

Definition squash_options_init (codec : SquashCodec)
    (destroy_notify : SquashDestroyNotify) : SquashOptions :=
  {| options_codec := codec; options_destroy_notify := destroy_notify |}.

(** ** Option store *)

Record SquashLZ4Options : Type := {
  base_object : SquashOptions;
  hc : bool
}.

Definition set_hc (o : SquashLZ4Options) (b : bool) : SquashLZ4Options :=
  {| base_object := base_object o; hc := b |}.

(** A pointer is [None] when null.  A pointer to a block that [malloc] just
    returned points to no value yet. *)
Definition is_null {A : Type} (p : option A) : bool :=
  match p with
  | None => true
  | Some _ => false
  end.

(** squash-lz4.c, lines 50-83.  [squash_lz4_options_destroy] and
    [squash_lz4_options_free] only forward to the host and to [free]; they
    appear here as the callback registered with the base object. *)
Definition squash_lz4_options_init (options : option unit) (codec : SquashCodec)
    (destroy_notify : SquashDestroyNotify) : prog SquashLZ4Options :=
  _ <- c_assert (negb (is_null options));;
  let base := squash_options_init codec destroy_notify in
  Ret {| base_object := base; hc := false |}.

Definition squash_lz4_options_new (codec : SquashCodec)
    : prog (option SquashLZ4Options) :=
  got <- malloc;;
  let options := if got then Some tt else None in
  o <- squash_lz4_options_init options codec squash_lz4_options_free;;
  Ret (option_map (fun _ => o) options).

Definition squash_lz4_create_options (codec : SquashCodec)
    : prog (option SquashLZ4Options) :=
  squash_lz4_options_new codec.

(** squash-lz4.c, lines 85-104.  The result pairs the status with the
    object [options] points to after the call. *)
Definition squash_lz4_parse_option (options : option SquashLZ4Options)
    (key value : string) : prog (SquashStatus * SquashLZ4Options) :=
  match options with
  | None => AssertFail
  | Some opts =>
      if strcasecmp key "level"%string =? 0 then
        let '(parsed, endptr) := strtol value 0 in
        let level := to_int parsed in
        if at_terminator endptr && ((level =? 1) || (level =? 9))
        then Ret (SQUASH_OK, set_hc opts (level =? 9))
        else Ret (SQUASH_BAD_VALUE, opts)
      else Ret (SQUASH_BAD_PARAM, opts)
  end.

(** ** Codec adapter *)

(** Modelled from the spec: the constant [LZ4_MAX_INPUT_SIZE] of lz4.h, which
    is not part of this file: the largest input size the library supports
    (0x7E000000). *)
Definition LZ4_MAX_INPUT_SIZE : Z := 2113929216.

(** Modelled from the spec: the macro [LZ4_COMPRESSBOUND] of lz4.h, which is
    not part of this file.  The specification calls its result "a worst-case
    output size guaranteed sufficient for compressing inputLength bytes of
    arbitrary data with this algorithm's framing overhead"; lz4.h gives it as
    [(unsigned)(isize) > (unsigned)LZ4_MAX_INPUT_SIZE ? 0
       : (isize) + ((isize)/255) + 16],
    expanded here at an argument of type size_t, whose arithmetic wraps
    modulo 2^64. *)
Definition LZ4_COMPRESSBOUND (isize : Z) : Z :=
  if to_uint isize >? to_uint LZ4_MAX_INPUT_SIZE then 0
  else to_size_t (isize + isize / 255 + 16).

(** squash-lz4.c, lines 106-109. *)
Definition squash_lz4_get_max_compressed_size (codec : SquashCodec)
    (uncompressed_length : Z) : Z :=
  LZ4_COMPRESSBOUND uncompressed_length.

(** What a buffer operation leaves behind: the status it returns, the value
    of the length slot after the call, and the bytes the primitive stored in
    the output buffer. *)
Record buffer_result : Type := {
  status : SquashStatus;
  length_slot : Z;
  written : list byte
}.

(** squash-lz4.c, lines 111-127.  On failure the length slot keeps the
    capacity it held. *)
Definition squash_lz4_decompress_buffer (codec : SquashCodec)
    (decompressed_length : Z)
    (compressed : list byte) (compressed_length : Z)
    (options : option SquashLZ4Options) : prog buffer_result :=
  r <- call (LZ4_decompress_safe compressed
               (to_int compressed_length) (to_int decompressed_length));;
  let lz4_e := fst r in
  if lz4_e <? 0
  then Ret {| status := SQUASH_FAILED;
              length_slot := decompressed_length;
              written := snd r |}
  else Ret {| status := SQUASH_OK;
              length_slot := to_size_t lz4_e;
              written := snd r |}.

(** [options == NULL || !options->hc] *)
Definition fast_path (options : option SquashLZ4Options) : bool :=
  match options with
  | None => true
  | Some o => negb (hc o)
  end.

(** squash-lz4.c, lines 129-147.  The length slot is overwritten in every
    case, with 0 when the primitive fails. *)
Definition squash_lz4_compress_buffer (codec : SquashCodec)
    (compressed_length : Z)
    (uncompressed : list byte) (uncompressed_length : Z)
    (options : option SquashLZ4Options) : prog buffer_result :=
  r <- (if fast_path options
        then call (LZ4_compress_limitedOutput uncompressed
                     (to_int uncompressed_length) (to_int compressed_length))
        else call (LZ4_compressHC_limitedOutput uncompressed
                     (to_int uncompressed_length) (to_int compressed_length)));;
  let compressed_length' := to_size_t (fst r) in
  Ret {| status := if compressed_length' =? 0
                   then SQUASH_BUFFER_FULL else SQUASH_OK;
         length_slot := compressed_length';
         written := snd r |}.

(** squash-lz4.c, lines 149-167. *)
Definition squash_lz4_compress_buffer_unsafe (codec : SquashCodec)
    (compressed_length : Z)
    (uncompressed : list byte) (uncompressed_length : Z)
    (options : option SquashLZ4Options) : prog buffer_result :=
  _ <- c_assert (compressed_length >=? LZ4_COMPRESSBOUND uncompressed_length);;
  r <- (if fast_path options
        then call (LZ4_compress uncompressed (to_int uncompressed_length))
        else call (LZ4_compressHC uncompressed (to_int uncompressed_length)));;
  let compressed_length' := to_size_t (fst r) in
  Ret {| status := if compressed_length' =? 0
                   then SQUASH_BUFFER_FULL else SQUASH_OK;
         length_slot := compressed_length';
         written := snd r |}.

(** ** Registration *)

(** The slots of the host's function table that this file fills; an empty
    slot is [None]. *)
Record SquashCodecFuncs : Type := {
  create_options :
    option (SquashCodec -> prog (option SquashLZ4Options));
  parse_option :
    option (option SquashLZ4Options -> string -> string ->
            prog (SquashStatus * SquashLZ4Options));
  get_max_compressed_size :
    option (SquashCodec -> Z -> Z);
  decompress_buffer :
    option (SquashCodec -> Z -> list byte -> Z ->
            option SquashLZ4Options -> prog buffer_result);
  compress_buffer :
    option (SquashCodec -> Z -> list byte -> Z ->
            option SquashLZ4Options -> prog buffer_result);
  compress_buffer_unsafe :
    option (SquashCodec -> Z -> list byte -> Z ->
            option SquashLZ4Options -> prog buffer_result)
}.

(** squash-lz4.c, lines 169-185. *)
Definition squash_plugin_init_codec (codec : SquashCodec)
    (funcs : SquashCodecFuncs) : SquashStatus * SquashCodecFuncs :=
  let name := squash_codec_get_name codec in
  if strcmp "lz4"%string name =? 0 then
    (SQUASH_OK,
     {| create_options := Some squash_lz4_create_options;
        parse_option := Some squash_lz4_parse_option;
        get_max_compressed_size := Some squash_lz4_get_max_compressed_size;
        decompress_buffer := Some squash_lz4_decompress_buffer;
        compress_buffer := Some squash_lz4_compress_buffer;
        compress_buffer_unsafe := Some squash_lz4_compress_buffer_unsafe |})
  else (SQUASH_UNABLE_TO_LOAD, funcs).

(** ** The documented behaviour of the LZ4 library (lz4.h, lz4hc.h) *)

Module LZ4Doc.

Definition len (l : list byte) : Z := Z.of_nat (List.length l).

Definition supported (inputSize : Z) : Prop :=
  0 <= inputSize <= LZ4_MAX_INPUT_SIZE.

(** [LZ4_compressBound]: the macro at an int argument. *)
Definition LZ4_compressBound (isize : Z) : Z :=
  if (0 <=? isize) && (isize <=? LZ4_MAX_INPUT_SIZE)
  then isize + isize / 255 + 16
  else 0.

(** The arguments of a compression call; [None] as capacity for the two
    primitives that take none. *)
Definition compress_args (c : lz4_call) : option (list byte * Z * option Z) :=
  match c with
  | LZ4_compress_limitedOutput s n m => Some (s, n, Some m)
  | LZ4_compressHC_limitedOutput s n m => Some (s, n, Some m)
  | LZ4_compress s n => Some (s, n, None)
  | LZ4_compressHC s n => Some (s, n, None)
  | LZ4_decompress_safe _ _ _ => None
  end.

(** Every primitive is declared to return an int. *)
Definition returns_int (w : world) : Prop :=
  forall c, is_int (fst (lz4 w c)).

(** Modelled from the spec: the LZ4 primitives are not part of this file.
    The specification treats them as the wrapped compression primitive:
    compression never writes beyond the capacity it is given and signals
    with a zero size that the result does not fit; decompression reports
    malformed, truncated or overflowing input with a negative result and
    otherwise inverts compression.  The contract states this in the words
    of the library's header, quoted at each field. *)
Record contract (w : world) : Prop := {
  result_is_int : returns_int w;
  (** "return : the number of bytes written in buffer dest, or 0 if the
      compression fails" *)
  compress_result : forall c s n m, compress_args c = Some (s, n, m) ->
    0 <= fst (lz4 w c) /\
    (fst (lz4 w c) <> 0 -> len (snd (lz4 w c)) = fst (lz4 w c));
  (** "This function never writes outside of provided output buffer." *)
  compress_limited : forall c s n m, compress_args c = Some (s, n, Some m) ->
    len (snd (lz4 w c)) <= Z.max 0 m;
  (** "Worst case size evaluation is provided by function
      LZ4_compressBound()" *)
  compress_worst_case : forall c s n m, compress_args c = Some (s, n, m) ->
    supported n -> len (snd (lz4 w c)) <= LZ4_compressBound n;
  (** "inputSize : Max supported value is LZ4_MAX_INPUT_SIZE" *)
  compress_unsupported : forall c s n m, compress_args c = Some (s, n, m) ->
    ~ supported n -> lz4 w c = (0, []);
  (** "return : the number of bytes decoded in the destination buffer
      (necessarily <= maxOutputSize)"; "it never writes outside of output
      buffer".  The bytes stored may be more than the number returned, as
      long as they stay within the buffer. *)
  decompress_result : forall s n m,
    let r := lz4 w (LZ4_decompress_safe s n m) in
    len (snd r) <= Z.max 0 m /\
    (0 <= fst r -> fst r <= m);
  (** Decompression inverts compression: a block produced from the first
      [n] bytes of [s] decodes to them in any buffer that can hold them. *)
  decompress_compress : forall c s n m block cap,
    compress_args c = Some (s, n, m) ->
    fst (lz4 w c) <> 0 -> n <= len s ->
    firstn (Z.to_nat (fst (lz4 w c))) block = snd (lz4 w c) ->
    n <= cap <= INT_MAX ->
    lz4 w (LZ4_decompress_safe block (fst (lz4 w c)) cap)
    = (n, firstn (Z.to_nat n) s)
}.

End LZ4Doc.
Import LZ4Doc.

(** ** A reference LZ4 library

    A decoder of the LZ4 block format and the simplest encoder the format
    allows (one final sequence made of literals only).  It shows that the
    contract above can be met and lets the adapter run on concrete inputs. *)

Module RefLZ4.

Definition Z_of_byte (b : byte) : Z := Z.of_N (Byte.to_N b).

Definition byte_of_Z (z : Z) : byte :=
  match Byte.of_N (Z.to_N z) with
  | Some b => b
  | None => x00
  end.

(** A length of 15 or more continues in extra bytes: 255 each, ended by a
    byte below 255. *)
Definition extra_length (n : Z) : list byte :=
  repeat xff (Z.to_nat (n / 255)) ++ [byte_of_Z (n mod 255)].

Definition encode_literals (lits : list byte) : list byte :=
  let n := len lits in
  if n <? 15 then byte_of_Z (16 * n) :: lits
  else byte_of_Z 240 :: extra_length (n - 15) ++ lits.

Definition compress (source : list byte) (inputSize : Z)
    (maxOutputSize : option Z) : Z * list byte :=
  if (0 <=? inputSize) && (inputSize <=? LZ4_MAX_INPUT_SIZE) then
    let block := encode_literals (firstn (Z.to_nat inputSize) source) in
    match maxOutputSize with
    | Some m => if m <? len block then (0, []) else (len block, block)
    | None => (len block, block)
    end
  else (0, []).

Fixpoint read_length (acc : Z) (inp : list byte) : option (Z * list byte) :=
  match inp with
  | [] => None
  | b :: rest =>
      if Z_of_byte b =? 255 then read_length (acc + 255) rest
      else Some (acc + Z_of_byte b, rest)
  end.

Definition field_length (nibble : Z) (inp : list byte) : option (Z * list byte) :=
  if nibble =? 15 then read_length 15 inp else Some (nibble, inp).

(** Copies [n] bytes from [offset] bytes before the end of [out], one at a
    time, so that a match may overlap what it produces. *)
Fixpoint copy_match (n offset : nat) (out : list byte) : list byte :=
  match n with
  | O => out
  | S n' => copy_match n' offset (out ++ [nth (List.length out - offset) out x00])
  end.

Fixpoint decode_block (fuel : nat) (inp out : list byte) : option (list byte) :=
  match fuel with
  | O => None
  | S fuel' =>
      match inp with
      | [] => None
      | token :: inp1 =>
          let t := Z_of_byte token in
          match field_length (t / 16) inp1 with
          | None => None
          | Some (litlen, inp2) =>
              if len inp2 <? litlen then None
              else
                let out1 := out ++ firstn (Z.to_nat litlen) inp2 in
                match skipn (Z.to_nat litlen) inp2 with
                | [] => Some out1
                | [_] => None
                | lo :: hi :: inp3 =>
                    let offset := Z_of_byte lo + 256 * Z_of_byte hi in
                    if (offset =? 0) || (len out1 <? offset) then None
                    else
                      match field_length (t mod 16) inp3 with
                      | None => None
                      | Some (mlen, inp4) =>
                          decode_block fuel' inp4
                            (copy_match (Z.to_nat (mlen + 4))
                                        (Z.to_nat offset) out1)
                      end
                end
          end
      end
  end.

Definition decompress_safe (source : list byte)
    (compressedSize maxDecompressedSize : Z) : Z * list byte :=
  if (compressedSize <? 0) || (len source <? compressedSize)
     || (INT_MAX <? maxDecompressedSize)
  then (-1, [])
  else
    let block := firstn (Z.to_nat compressedSize) source in
    match decode_block (S (List.length block)) block [] with
    | Some out => if len out <=? maxDecompressedSize then (len out, out) else (-1, [])
    | None => (-1, [])
    end.

Definition exec (c : lz4_call) : Z * list byte :=
  match c with
  | LZ4_decompress_safe s n m => decompress_safe s n m
  | LZ4_compress_limitedOutput s n m => compress s n (Some m)
  | LZ4_compressHC_limitedOutput s n m => compress s n (Some m)
  | LZ4_compress s n => compress s n None
  | LZ4_compressHC s n => compress s n None
  end.

(** The reference library as a world; [mem] tells whether [malloc] finds
    memory. *)
Definition ref_world (mem : bool) : world :=
  {| lz4 := exec; malloc_ok := mem |}.

End RefLZ4.

(** ** Vocabulary of the statements *)

(** The value [squash_lz4_options_init] leaves in the block. *)
Definition initial_options (codec : SquashCodec) : SquashLZ4Options :=
  {| base_object := squash_options_init codec squash_lz4_options_free;
     hc := false |}.

(** Whether an options pointer asks for high compression. *)
Definition high_compression (options : option SquashLZ4Options) : bool :=
  match options with
  | Some o => hc o
  | None => false
  end.

(** The one primitive each compress variant calls. *)
Definition limited_call (options : option SquashLZ4Options)
    (src : list byte) (n cap : Z) : lz4_call :=
  if high_compression options
  then LZ4_compressHC_limitedOutput src (to_int n) (to_int cap)
  else LZ4_compress_limitedOutput src (to_int n) (to_int cap).

Definition unbounded_call (options : option SquashLZ4Options)
    (src : list byte) (n : Z) : lz4_call :=
  if high_compression options
  then LZ4_compressHC src (to_int n)
  else LZ4_compress src (to_int n).

(** What a compress variant returns after the primitive answered [r]. *)
Definition compress_report (r : Z * list byte) : buffer_result :=
  {| status := if to_size_t (fst r) =? 0 then SQUASH_BUFFER_FULL else SQUASH_OK;
     length_slot := to_size_t (fst r);
     written := snd r |}.

(** What Decompress returns after the primitive answered [r], the length
    slot holding [capacity] before the call. *)
Definition decompress_report (capacity : Z) (r : Z * list byte) : buffer_result :=
  if fst r <? 0
  then {| status := SQUASH_FAILED; length_slot := capacity; written := snd r |}
  else {| status := SQUASH_OK; length_slot := to_size_t (fst r); written := snd r |}.

(** How a compress result relates to the size [r] the primitive returned. *)
Definition reports (r : Z) (res : buffer_result) : Prop :=
  (status res = SQUASH_BUFFER_FULL <-> r = 0) /\
  (status res = SQUASH_OK <-> r <> 0) /\
  (status res = SQUASH_BUFFER_FULL \/ status res = SQUASH_OK) /\
  length_slot res = to_size_t r /\
  (0 <= r -> length_slot res = r).

(** The function table once this file has filled its six slots, and an
    empty one. *)
Definition lz4_funcs : SquashCodecFuncs :=
  {| create_options := Some squash_lz4_create_options;
     parse_option := Some squash_lz4_parse_option;
     get_max_compressed_size := Some squash_lz4_get_max_compressed_size;
     decompress_buffer := Some squash_lz4_decompress_buffer;
     compress_buffer := Some squash_lz4_compress_buffer;
     compress_buffer_unsafe := Some squash_lz4_compress_buffer_unsafe |}.

Definition no_funcs : SquashCodecFuncs :=
  {| create_options := None;
     parse_option := None;
     get_max_compressed_size := None;
     decompress_buffer := None;
     compress_buffer := None;
     compress_buffer_unsafe := None |}.

(** The codec and the two options values used in examples. *)
Definition lz4_codec : SquashCodec := {| codec_name := "lz4" |}.
Definition fast_options : SquashLZ4Options := initial_options lz4_codec.
Definition hc_options : SquashLZ4Options := set_hc fast_options true.

(** * Properties *)

(** ** C integer conversions *)

Section Conversions.

Lemma to_int_is_int z : is_int (to_int z).
Proof. unfold is_int, to_int, INT_MIN, INT_MAX. Z.div_mod_to_equations. lia. Qed.

Lemma to_int_small z : is_int z -> to_int z = z.
Proof.
  unfold is_int, to_int, INT_MIN, INT_MAX. intros H.
  Z.div_mod_to_equations. lia.
Qed.

Lemma to_size_t_is_size_t z : is_size_t (to_size_t z).
Proof. unfold is_size_t, to_size_t, SIZE_MAX. Z.div_mod_to_equations. lia. Qed.

Lemma to_size_t_small z : is_size_t z -> to_size_t z = z.
Proof.
  unfold is_size_t, to_size_t, SIZE_MAX. intros H.
  Z.div_mod_to_equations. lia.
Qed.

Lemma to_size_t_nonneg_int r : is_int r -> 0 <= r -> to_size_t r = r.
Proof.
  intros Hr H0. apply to_size_t_small.
  unfold is_int, INT_MAX, is_size_t, SIZE_MAX in *. lia.
Qed.

(** An int converted to size_t is zero only when it was zero. *)
Lemma to_size_t_int_zero r : is_int r -> (to_size_t r = 0 <-> r = 0).
Proof.
  unfold is_int, to_size_t, INT_MIN, INT_MAX. intros H. split; intros E.
  - Z.div_mod_to_equations. lia.
  - subst r. reflexivity.
Qed.

Lemma to_int_nonneg_uint n : 0 <= to_int n -> to_uint n = to_int n.
Proof. unfold to_int, to_uint. intros H. Z.div_mod_to_equations. lia. Qed.

End Conversions.

(** ** Lengths *)

Section Lengths.

Lemma len_nonneg l : 0 <= len l.
Proof. unfold len. lia. Qed.

Lemma len_app l1 l2 : len (l1 ++ l2) = len l1 + len l2.
Proof. unfold len. rewrite length_app. lia. Qed.

Lemma len_cons b l : len (b :: l) = 1 + len l.
Proof. unfold len. simpl List.length. lia. Qed.

Lemma len_firstn n l : 0 <= n -> len (firstn (Z.to_nat n) l) = Z.min n (len l).
Proof. intros Hn. unfold len. rewrite length_firstn. lia. Qed.

Lemma len_zero l : len l <= 0 -> l = [].
Proof.
  destruct l as [|b l]; [reflexivity|].
  rewrite len_cons. pose proof (len_nonneg l). lia.
Qed.

End Lengths.

(** ** Strings *)

Section Strings.

Lemma c_string_cons c s :
  c_string (String c s) = true -> code c <> 0 /\ c_string s = true.
Proof.
  simpl. intros H. apply andb_true_iff in H. destruct H as [H1 H2].
  apply negb_true_iff, Z.eqb_neq in H1. split; assumption.
Qed.

Lemma code_inj x y : code x = code y -> x = y.
Proof.
  unfold code. intros H. apply N2Z.inj in H.
  rewrite <- (ascii_N_embedding x), <- (ascii_N_embedding y), H. reflexivity.
Qed.

Lemma code_tolower c :
  code (tolower c)
  = if (65 <=? code c) && (code c <=? 90) then code c + 32 else code c.
Proof.
  unfold tolower. destruct ((65 <=? code c) && (code c <=? 90)) eqn:E;
    [|reflexivity].
  apply andb_true_iff in E. destruct E as [E1 E2].
  apply Z.leb_le in E1. apply Z.leb_le in E2.
  unfold code in *. rewrite N_ascii_embedding by lia. lia.
Qed.

Lemma code_tolower_zero c : code (tolower c) = 0 -> code c = 0.
Proof.
  rewrite code_tolower. destruct ((65 <=? code c) && (code c <=? 90)) eqn:E;
    [|trivial].
  apply andb_true_iff in E. destruct E as [E1 _]. apply Z.leb_le in E1. lia.
Qed.

(** [strcmp] is zero exactly on equal strings. *)
Lemma strcmp_eq a : forall b,
  c_string a = true -> c_string b = true -> (strcmp a b = 0 <-> a = b).
Proof.
  induction a as [|x a IH]; intros [|y b] Ha Hb;
    try apply c_string_cons in Ha; try apply c_string_cons in Hb;
    cbn [strcmp].
  - tauto.
  - split; [lia|discriminate].
  - split; [lia|discriminate].
  - destruct Ha as [Hx Ha]. destruct Hb as [Hy Hb].
    destruct (code x =? code y) eqn:E.
    + apply Z.eqb_eq, code_inj in E. subst y. rewrite (IH b Ha Hb).
      split; [intros ->; reflexivity|intros [= ->]; reflexivity].
    + apply Z.eqb_neq in E. split; [lia|].
      intros [= -> _]. contradiction E. reflexivity.
Qed.

(** [strcasecmp] is zero exactly on strings equal once in lower case. *)
Lemma strcasecmp_eq a : forall b,
  c_string a = true -> c_string b = true ->
  (strcasecmp a b = 0 <-> lowercase a = lowercase b).
Proof.
  induction a as [|x a IH]; intros [|y b] Ha Hb;
    try apply c_string_cons in Ha; try apply c_string_cons in Hb;
    cbn [strcasecmp lowercase].
  - tauto.
  - destruct Hb as [Hy _]. split; [|discriminate].
    intros H. contradiction Hy. apply code_tolower_zero. lia.
  - destruct Ha as [Hx _]. split; [|discriminate].
    intros H. contradiction Hx. apply code_tolower_zero. lia.
  - destruct Ha as [Hx Ha]. destruct Hb as [Hy Hb].
    destruct (code (tolower x) =? code (tolower y)) eqn:E.
    + apply Z.eqb_eq, code_inj in E. rewrite E, (IH b Ha Hb).
      split; [intros ->; reflexivity|intros [= ->]; reflexivity].
    + apply Z.eqb_neq in E. split; [lia|].
      intros [= H _]. contradiction E. rewrite H. reflexivity.
Qed.

End Strings.

(** ** Arithmetic of the size bound *)

Section Bound.

(** The worst case at a size_t dominates the worst case at its conversion
    to int, whenever that conversion is a size the library supports; this
    holds even where the size_t addition wraps around, and so for the macro
    with or without its range test. *)
Lemma worst_case_truncation n :
  is_size_t n -> supported (to_int n) ->
  to_int n + to_int n / 255 + 16 <= to_size_t (n + n / 255 + 16).
Proof.
  unfold is_size_t, supported, SIZE_MAX, to_int, to_size_t, LZ4_MAX_INPUT_SIZE.
  intros Hn Hs. Z.div_mod_to_equations. lia.
Qed.

Lemma bound_truncation n :
  is_size_t n -> supported (to_int n) ->
  LZ4_compressBound (to_int n) <= LZ4_COMPRESSBOUND n.
Proof.
  intros Hn Hs. pose proof (worst_case_truncation n Hn Hs) as H.
  unfold supported in Hs. unfold LZ4_compressBound, LZ4_COMPRESSBOUND.
  replace ((0 <=? to_int n) && (to_int n <=? LZ4_MAX_INPUT_SIZE)) with true
    by (symmetry; apply andb_true_iff; split; apply Z.leb_le; lia).
  rewrite (to_int_nonneg_uint n) by lia.
  replace (to_int n >? to_uint LZ4_MAX_INPUT_SIZE) with false
    by (symmetry; rewrite Z.gtb_ltb; apply Z.ltb_ge; exact (proj2 Hs)).
  exact H.
Qed.

Lemma COMPRESSBOUND_size_t n : is_size_t (LZ4_COMPRESSBOUND n).
Proof.
  unfold LZ4_COMPRESSBOUND.
  destruct (to_uint n >? to_uint LZ4_MAX_INPUT_SIZE).
  - unfold is_size_t, SIZE_MAX. lia.
  - apply to_size_t_is_size_t.
Qed.

End Bound.

(** ** The reference library meets the contract *)

Module RefLZ4Facts.
Import RefLZ4.

Lemma Z_of_byte_range b : 0 <= Z_of_byte b < 256.
Proof.
  unfold Z_of_byte. pose proof (Byte.to_N_bounded b) as H.
  lia.
Qed.

Lemma Z_of_byte_of_Z z : 0 <= z < 256 -> Z_of_byte (byte_of_Z z) = z.
Proof.
  intros Hz. unfold Z_of_byte, byte_of_Z.
  destruct (Byte.of_N (Z.to_N z)) as [b|] eqn:E.
  - apply Byte.to_of_N in E. rewrite E. lia.
  - apply Byte.of_N_None_iff in E. lia.
Qed.

Lemma len_extra_length n : 0 <= n -> len (extra_length n) = n / 255 + 1.
Proof.
  intros Hn. unfold extra_length. rewrite len_app. unfold len.
  rewrite repeat_length. simpl List.length.
  assert (0 <= n / 255) by (apply Z.div_pos; lia). lia.
Qed.

Lemma len_encode_literals lits :
  len (encode_literals lits)
  = if len lits <? 15 then 1 + len lits
    else 1 + ((len lits - 15) / 255 + 1) + len lits.
Proof.
  unfold encode_literals. destruct (len lits <? 15) eqn:E.
  - apply len_cons.
  - apply Z.ltb_ge in E. rewrite len_cons, len_app, len_extra_length; lia.
Qed.

Lemma len_encode_literals_bound lits n :
  len lits <= n -> 1 <= len (encode_literals lits) <= n + n / 255 + 16.
Proof.
  intros H. rewrite len_encode_literals. pose proof (len_nonneg lits).
  destruct (len lits <? 15) eqn:E.
  - apply Z.ltb_lt in E. Z.div_mod_to_equations. lia.
  - apply Z.ltb_ge in E. Z.div_mod_to_equations. lia.
Qed.

Lemma read_length_run k : forall acc b rest,
  Z_of_byte b <> 255 ->
  read_length acc (repeat xff k ++ b :: rest)
  = Some (acc + 255 * Z.of_nat k + Z_of_byte b, rest).
Proof.
  induction k as [|k IH]; intros acc b rest Hb.
  - simpl. apply Z.eqb_neq in Hb. rewrite Hb. f_equal. f_equal. lia.
  - change (repeat xff (S k) ++ b :: rest)
      with (xff :: (repeat xff k ++ b :: rest)).
    cbn [read_length]. change (Z_of_byte xff =? 255) with true. cbv iota.
    rewrite IH by assumption. f_equal. f_equal. lia.
Qed.

Lemma read_length_extra n acc rest :
  0 <= n -> read_length acc (extra_length n ++ rest) = Some (acc + n, rest).
Proof.
  intros Hn. unfold extra_length. rewrite <- app_assoc. simpl app.
  assert (Hm : 0 <= n mod 255 < 255) by (apply Z.mod_pos_bound; lia).
  rewrite read_length_run.
  - rewrite Z_of_byte_of_Z by lia.
    assert (0 <= n / 255) by (apply Z.div_pos; lia).
    f_equal. f_equal. rewrite Z2Nat.id by lia.
    pose proof (Z.div_mod n 255). lia.
  - rewrite Z_of_byte_of_Z by lia. lia.
Qed.

(** The decoder inverts the literal-only encoder. *)
Lemma decode_encode_literals fuel lits :
  decode_block (S fuel) (encode_literals lits) [] = Some lits.
Proof.
  pose proof (len_nonneg lits) as Hl.
  unfold encode_literals. destruct (len lits <? 15) eqn:E.
  - apply Z.ltb_lt in E. cbn [decode_block].
    rewrite Z_of_byte_of_Z by lia.
    replace (16 * len lits / 16) with (len lits)
      by (symmetry; rewrite Z.mul_comm; apply Z.div_mul; lia).
    unfold field_length at 1.
    replace (len lits =? 15) with false by (symmetry; apply Z.eqb_neq; lia).
    rewrite Z.ltb_irrefl.
    unfold len. rewrite Nat2Z.id, firstn_all, skipn_all. reflexivity.
  - apply Z.ltb_ge in E. cbn [decode_block].
    rewrite Z_of_byte_of_Z by lia.
    change (240 / 16) with 15. unfold field_length at 1.
    change (15 =? 15) with true. cbv iota.
    rewrite read_length_extra by lia.
    replace (15 + (len lits - 15)) with (len lits) by lia.
    rewrite Z.ltb_irrefl.
    unfold len. rewrite Nat2Z.id, firstn_all, skipn_all. reflexivity.
Qed.

Lemma compress_cases s n m :
  (fst (compress s n m) = 0 /\ snd (compress s n m) = []) \/
  (supported n /\
   snd (compress s n m) = encode_literals (firstn (Z.to_nat n) s) /\
   fst (compress s n m) = len (snd (compress s n m)) /\
   (forall cap, m = Some cap -> len (snd (compress s n m)) <= cap)).
Proof.
  unfold compress, supported.
  destruct ((0 <=? n) && (n <=? LZ4_MAX_INPUT_SIZE)) eqn:E; [|left; split; reflexivity].
  apply andb_true_iff in E. destruct E as [E1 E2].
  apply Z.leb_le in E1. apply Z.leb_le in E2.
  destruct m as [cap|].
  - destruct (cap <? len (encode_literals (firstn (Z.to_nat n) s))) eqn:C.
    + left. split; reflexivity.
    + right. apply Z.ltb_ge in C. simpl. repeat split; try lia.
      intros cap' [= <-]. exact C.
  - right. simpl. repeat split; try lia. intros cap' [=].
Qed.

Lemma compress_bound s n m :
  supported n -> len (snd (compress s n m)) <= n + n / 255 + 16.
Proof.
  intros Hs. destruct (compress_cases s n m) as [[_ ->]|(_ & -> & _)].
  - unfold supported in Hs. change (len []) with 0. Z.div_mod_to_equations. lia.
  - apply len_encode_literals_bound. unfold supported in Hs.
    rewrite len_firstn by lia. lia.
Qed.

Lemma exec_int c : is_int (fst (exec c)).
Proof.
  assert (Hc : forall s n m, is_int (fst (compress s n m))).
  { intros s n m. destruct (compress_cases s n m) as [[-> _]|(Hs & _ & -> & _)].
    - unfold is_int, INT_MIN, INT_MAX. lia.
    - pose proof (compress_bound s n m Hs) as Hb.
      pose proof (len_nonneg (snd (compress s n m))).
      unfold supported, LZ4_MAX_INPUT_SIZE in Hs.
      unfold is_int, INT_MIN, INT_MAX. Z.div_mod_to_equations. lia. }
  destruct c as [s n m|s n m|s n m|s n|s n]; simpl; try apply Hc.
  unfold decompress_safe.
  destruct ((n <? 0) || (len s <? n) || (INT_MAX <? m)) eqn:G;
    [unfold is_int, INT_MIN, INT_MAX; simpl; lia|].
  apply orb_false_iff in G. destruct G as [_ G]. apply Z.ltb_ge in G.
  destruct (decode_block _ _ _) as [out|];
    [|unfold is_int, INT_MIN, INT_MAX; simpl; lia].
  destruct (len out <=? m) eqn:F;
    [|unfold is_int, INT_MIN, INT_MAX; simpl; lia].
  apply Z.leb_le in F. pose proof (len_nonneg out).
  unfold is_int, INT_MIN, INT_MAX in *. simpl. lia.
Qed.

Lemma exec_compress c s n m :
  compress_args c = Some (s, n, m) -> exec c = compress s n m.
Proof. destruct c; simpl; intros [= <- <- <-]; reflexivity. Qed.

Lemma decompress_safe_result s n m :
  let r := decompress_safe s n m in
  len (snd r) <= Z.max 0 m /\
  (0 <= fst r -> len (snd r) = fst r /\ fst r <= m).
Proof.
  unfold decompress_safe.
  destruct ((n <? 0) || (len s <? n) || (INT_MAX <? m));
    [simpl; change (len []) with 0; lia|].
  destruct (decode_block _ _ _) as [out|];
    [|simpl; change (len []) with 0; lia].
  destruct (len out <=? m) eqn:F; [|simpl; change (len []) with 0; lia].
  apply Z.leb_le in F. simpl. lia.
Qed.

Lemma decompress_safe_compress s n m block cap :
  fst (compress s n m) <> 0 -> n <= len s ->
  firstn (Z.to_nat (fst (compress s n m))) block = snd (compress s n m) ->
  n <= cap <= INT_MAX ->
  decompress_safe block (fst (compress s n m)) cap
  = (n, firstn (Z.to_nat n) s).
Proof.
  intros Hr Hn Hblock Hcap.
  destruct (compress_cases s n m) as [[E _]|(Hs & Eb & Er & _)];
    [contradiction|].
  unfold supported in Hs.
  assert (Hlen : fst (compress s n m) <= len block).
  { rewrite Er, <- Hblock. unfold len. rewrite length_firstn. lia. }
  pose proof (len_nonneg (snd (compress s n m))) as Hpos.
  unfold decompress_safe.
  replace (fst (compress s n m) <? 0) with false
    by (symmetry; apply Z.ltb_ge; lia).
  replace (len block <? fst (compress s n m)) with false
    by (symmetry; apply Z.ltb_ge; lia).
  replace (INT_MAX <? cap) with false by (symmetry; apply Z.ltb_ge; lia).
  cbn [orb]. rewrite Hblock, Eb, decode_encode_literals.
  rewrite len_firstn by lia.
  replace (Z.min n (len s)) with n by lia.
  replace (n <=? cap) with true by (symmetry; apply Z.leb_le; lia).
  reflexivity.
Qed.

Lemma ref_world_contract mem : contract (ref_world mem).
Proof.
  constructor; unfold returns_int; cbn [lz4 ref_world].
  - apply exec_int.
  - intros c s n m Hc. rewrite (exec_compress _ _ _ _ Hc).
    destruct (compress_cases s n m) as [[-> _]|(_ & _ & -> & _)].
    + split; [lia|intros H; contradiction H; reflexivity].
    + split; [apply len_nonneg|reflexivity].
  - intros c s n m Hc. rewrite (exec_compress _ _ _ _ Hc).
    destruct (compress_cases s n (Some m)) as [[_ ->]|(_ & _ & _ & H)].
    + change (len []) with 0. lia.
    + specialize (H m eq_refl). lia.
  - intros c s n m Hc Hs. rewrite (exec_compress _ _ _ _ Hc).
    unfold LZ4_compressBound. unfold supported in Hs.
    replace ((0 <=? n) && (n <=? LZ4_MAX_INPUT_SIZE)) with true
      by (symmetry; apply andb_true_iff; split; apply Z.leb_le; lia).
    apply compress_bound. exact Hs.
  - intros c s n m Hc Hs. rewrite (exec_compress _ _ _ _ Hc).
    unfold compress.
    destruct ((0 <=? n) && (n <=? LZ4_MAX_INPUT_SIZE)) eqn:E; [|reflexivity].
    apply andb_true_iff in E. destruct E as [E1 E2].
    apply Z.leb_le in E1. apply Z.leb_le in E2.
    contradiction Hs. split; assumption.
  - intros s n m. destruct (decompress_safe_result s n m) as [H1 H2].
    split; [exact H1|]. intros H. apply (H2 H).
  - intros c s n m block cap Hc. rewrite (exec_compress _ _ _ _ Hc).
    apply decompress_safe_compress.
Qed.

End RefLZ4Facts.

(** ** Option store *)

Section OptionStore.

Variable codec : SquashCodec.

Lemma options_init_null notify :
  squash_lz4_options_init None codec notify = AssertFail.
Proof. reflexivity. Qed.

(** Create, by what the allocator answers: with a block, it returns a
    pointer to a new Options value whose high-compression flag is false;
    with the null pointer, it hands that pointer unchecked to
    [squash_lz4_options_init] and breaks the assertion [options != NULL]
    made there. *)
Lemma create_options_outcome (w : world) :
  run w (squash_lz4_create_options codec)
  = if malloc_ok w then Returned (Some (initial_options codec)) else Aborted.
Proof.
  unfold squash_lz4_create_options, squash_lz4_options_new, malloc.
  cbn [bind run]. destruct (malloc_ok w); reflexivity.
Qed.

Lemma create_options_calls_nothing (w : world) :
  calls w (squash_lz4_create_options codec) = [].
Proof.
  unfold squash_lz4_create_options, squash_lz4_options_new, malloc.
  cbn [bind calls]. destruct (malloc_ok w); reflexivity.
Qed.

(** Parse on an options object, case by case, as the code decides it. *)
Lemma parse_option_cases opts key value :
  squash_lz4_parse_option (Some opts) key value
  = if strcasecmp key "level" =? 0 then
      let level := to_int (fst (strtol value 0)) in
      if at_terminator (snd (strtol value 0))
         && ((level =? 1) || (level =? 9))
      then Ret (SQUASH_OK, set_hc opts (level =? 9))
      else Ret (SQUASH_BAD_VALUE, opts)
    else Ret (SQUASH_BAD_PARAM, opts).
Proof.
  unfold squash_lz4_parse_option.
  destruct (strtol value 0) as [parsed endptr]. reflexivity.
Qed.

Lemma parse_option_null key value :
  squash_lz4_parse_option None key value = AssertFail.
Proof. reflexivity. Qed.

(** The key is "level" in any mix of cases exactly when [strcasecmp] says
    so. *)
Lemma strcasecmp_level key :
  c_string key = true ->
  (strcasecmp key "level" = 0 <-> lowercase key = "level"%string).
Proof. intros Hk. apply (strcasecmp_eq key "level" Hk eq_refl). Qed.

(** When the parsed long fits an int, Parse does what the specification
    says: success exactly for a fully consumed value equal to 1 or 9. *)
Lemma parse_option_level_in_int_range opts key value :
  strcasecmp key "level" = 0 ->
  is_int (fst (strtol value 0)) ->
  squash_lz4_parse_option (Some opts) key value
  = if at_terminator (snd (strtol value 0))
       && ((fst (strtol value 0) =? 1) || (fst (strtol value 0) =? 9))
    then Ret (SQUASH_OK, set_hc opts (fst (strtol value 0) =? 9))
    else Ret (SQUASH_BAD_VALUE, opts).
Proof.
  intros Hk Hr. rewrite parse_option_cases, Hk. cbn zeta.
  rewrite (to_int_small _ Hr). reflexivity.
Qed.

Lemma parse_option_other_key opts key value :
  strcasecmp key "level" <> 0 ->
  squash_lz4_parse_option (Some opts) key value = Ret (SQUASH_BAD_PARAM, opts).
Proof.
  intros Hk. rewrite parse_option_cases.
  apply Z.eqb_neq in Hk. rewrite Hk. reflexivity.
Qed.

(** C2, at the input where the code departs from it: the value
    "4294967297" is consumed entirely by the integer parse and yields
    4294967297, which is neither 1 nor 9, so Parse should fail with "bad
    value"; the conversion of the parsed long to int turns it into 1 and
    Parse succeeds, clearing the high-compression flag. *)
Theorem parse_option_level_wraps (opts : SquashLZ4Options) :
  strtol "4294967297" 0 = (4294967297, EmptyString) /\
  4294967297 <> 1 /\ 4294967297 <> 9 /\
  squash_lz4_parse_option (Some opts) "level" "4294967297"
  = Ret (SQUASH_OK, set_hc opts false).
Proof. repeat split; try discriminate. Qed.

(** Without the range condition of [parse_option_level_in_int_range] the
    specification's reading of Parse does not hold. *)
Lemma parse_option_level_not_universal :
  ~ (forall opts key value,
       strcasecmp key "level" = 0 ->
       squash_lz4_parse_option (Some opts) key value
       = if at_terminator (snd (strtol value 0))
            && ((fst (strtol value 0) =? 1) || (fst (strtol value 0) =? 9))
         then Ret (SQUASH_OK, set_hc opts (fst (strtol value 0) =? 9))
         else Ret (SQUASH_BAD_VALUE, opts)).
Proof.
  intros H.
  specialize (H fast_options "level"%string "4294967297"%string eq_refl).
  vm_compute in H. discriminate H.
Qed.

(** C10: Parse on an options object always returns, and whenever the status
    is not "ok" (it is then "bad value" or "bad parameter") the object is
    exactly as it was before the call; on "ok" only the high-compression
    flag may have changed. *)
Theorem parse_option_failure_keeps_options opts key value :
  exists st opts',
    squash_lz4_parse_option (Some opts) key value = Ret (st, opts') /\
    ((st = SQUASH_OK /\ base_object opts' = base_object opts) \/
     ((st = SQUASH_BAD_VALUE \/ st = SQUASH_BAD_PARAM) /\ opts' = opts)).
Proof.
  rewrite parse_option_cases.
  destruct (strcasecmp key "level" =? 0); cbn zeta.
  - destruct (at_terminator _ && _).
    + eexists _, _. split; [reflexivity|]. left. split; reflexivity.
    + eexists _, _. split; [reflexivity|]. right. split; [left|]; reflexivity.
  - eexists _, _. split; [reflexivity|]. right. split; [right|]; reflexivity.
Qed.

End OptionStore.

(** C9, at the input where the code departs from it: memory is exhausted
    and [malloc] returns the null pointer.  The claim has the failure
    reported to the host as an allocation failure.
    [squash_lz4_options_new] does not test the pointer: it passes it to
    [squash_lz4_options_init], violating the assertion [options != NULL]
    that function opens with, so that Create returns nothing to the host
    for any codec (the process is aborted; were the assertion compiled out,
    the store to [options->hc] would go through the null pointer). *)
Theorem create_options_exhausted_aborts (codec : SquashCodec) :
  malloc_ok (RefLZ4.ref_world false) = false /\
  squash_lz4_options_init None codec squash_lz4_options_free = AssertFail /\
  run (RefLZ4.ref_world false) (squash_lz4_create_options codec) = Aborted /\
  ~ (exists r,
       run (RefLZ4.ref_world false) (squash_lz4_create_options codec)
       = Returned r).
Proof.
  repeat split. intros [r H]. cbn in H. discriminate H.
Qed.

Example parse_level_examples :
  squash_lz4_parse_option (Some hc_options) "level" "1"
    = Ret (SQUASH_OK, fast_options) /\
  squash_lz4_parse_option (Some fast_options) "LEVEL" "9"
    = Ret (SQUASH_OK, hc_options) /\
  squash_lz4_parse_option (Some hc_options) "level" "5"
    = Ret (SQUASH_BAD_VALUE, hc_options) /\
  squash_lz4_parse_option (Some hc_options) "level" "abc"
    = Ret (SQUASH_BAD_VALUE, hc_options) /\
  squash_lz4_parse_option (Some hc_options) "level" "1x"
    = Ret (SQUASH_BAD_VALUE, hc_options) /\
  squash_lz4_parse_option (Some hc_options) "level" ""
    = Ret (SQUASH_BAD_VALUE, hc_options) /\
  squash_lz4_parse_option (Some hc_options) "anything_else" "1"
    = Ret (SQUASH_BAD_PARAM, hc_options).
Proof. repeat split. Qed.

(** ** Codec adapter *)

Section CodecAdapter.

Variable w : world.
Variable codec : SquashCodec.

Lemma fast_path_high_compression options :
  fast_path options = negb (high_compression options).
Proof. destruct options; reflexivity. Qed.

Lemma compress_buffer_run cap src n options :
  run w (squash_lz4_compress_buffer codec cap src n options)
  = Returned (compress_report (lz4 w (limited_call options src n cap))).
Proof.
  unfold squash_lz4_compress_buffer, limited_call, call.
  rewrite fast_path_high_compression.
  destruct (high_compression options); reflexivity.
Qed.

Lemma compress_buffer_calls cap src n options :
  calls w (squash_lz4_compress_buffer codec cap src n options)
  = [limited_call options src n cap].
Proof.
  unfold squash_lz4_compress_buffer, limited_call, call.
  rewrite fast_path_high_compression.
  destruct (high_compression options); reflexivity.
Qed.

Lemma compress_buffer_unsafe_run cap src n options :
  run w (squash_lz4_compress_buffer_unsafe codec cap src n options)
  = if cap >=? LZ4_COMPRESSBOUND n
    then Returned (compress_report (lz4 w (unbounded_call options src n)))
    else Aborted.
Proof.
  unfold squash_lz4_compress_buffer_unsafe, unbounded_call, call, c_assert.
  rewrite fast_path_high_compression.
  destruct (cap >=? LZ4_COMPRESSBOUND n); [|reflexivity].
  destruct (high_compression options); reflexivity.
Qed.

Lemma compress_buffer_unsafe_calls cap src n options :
  calls w (squash_lz4_compress_buffer_unsafe codec cap src n options)
  = if cap >=? LZ4_COMPRESSBOUND n
    then [unbounded_call options src n]
    else [].
Proof.
  unfold squash_lz4_compress_buffer_unsafe, unbounded_call, call, c_assert.
  rewrite fast_path_high_compression.
  destruct (cap >=? LZ4_COMPRESSBOUND n); [|reflexivity].
  destruct (high_compression options); reflexivity.
Qed.

(** C3: Compress issues exactly one call, to LZ4_compressHC_limitedOutput
    when an options object is supplied and its flag is set, and to
    LZ4_compress_limitedOutput when the options pointer is null or the flag
    is clear; CompressUnsafe, once its capacity assertion holds, does the
    same with LZ4_compressHC and LZ4_compress (when the assertion fails it
    stops before calling anything). *)
Theorem compress_variant_selection cap src n options :
  calls w (squash_lz4_compress_buffer codec cap src n options)
  = [match options with
     | Some {| hc := true |} =>
         LZ4_compressHC_limitedOutput src (to_int n) (to_int cap)
     | Some {| hc := false |} | None =>
         LZ4_compress_limitedOutput src (to_int n) (to_int cap)
     end]
  /\
  calls w (squash_lz4_compress_buffer_unsafe codec cap src n options)
  = if cap >=? LZ4_COMPRESSBOUND n
    then [match options with
          | Some {| hc := true |} => LZ4_compressHC src (to_int n)
          | Some {| hc := false |} | None => LZ4_compress src (to_int n)
          end]
    else [].
Proof.
  rewrite compress_buffer_calls, compress_buffer_unsafe_calls.
  unfold limited_call, unbounded_call.
  destruct options as [[base [|]]|]; split; reflexivity.
Qed.

Lemma compress_report_reports r :
  is_int (fst r) -> reports (fst r) (compress_report r).
Proof.
  intros Hr. pose proof (to_size_t_int_zero _ Hr) as Hz.
  unfold reports, compress_report. cbn [status length_slot].
  destruct (to_size_t (fst r) =? 0) eqn:E.
  - apply Z.eqb_eq in E. pose proof (proj1 Hz E) as E0.
    split; [|split; [|split; [|split]]].
    + split; [intros _; exact E0|reflexivity].
    + split; [discriminate|intros H; contradiction (H E0)].
    + left. reflexivity.
    + reflexivity.
    + intros _. rewrite E, E0. reflexivity.
  - apply Z.eqb_neq in E.
    assert (E0 : fst r <> 0) by (intros H; apply E, Hz, H).
    split; [|split; [|split; [|split]]].
    + split; [discriminate|intros H; contradiction (E0 H)].
    + split; [intros _; exact E0|reflexivity].
    + right. reflexivity.
    + reflexivity.
    + intros H. apply to_size_t_nonneg_int; assumption.
Qed.

Lemma compress_status_only cap src n options res :
  run w (squash_lz4_compress_buffer codec cap src n options) = Returned res \/
  run w (squash_lz4_compress_buffer_unsafe codec cap src n options) = Returned res ->
  status res = SQUASH_OK \/ status res = SQUASH_BUFFER_FULL.
Proof.
  rewrite compress_buffer_run, compress_buffer_unsafe_run.
  intros [H|H].
  - injection H as <-. unfold compress_report. cbn [status].
    destruct (_ =? 0); tauto.
  - destruct (cap >=? LZ4_COMPRESSBOUND n); [|discriminate].
    injection H as <-. unfold compress_report. cbn [status].
    destruct (_ =? 0); tauto.
Qed.

Lemma decompress_buffer_run cap block n options :
  run w (squash_lz4_decompress_buffer codec cap block n options)
  = Returned (decompress_report cap
                (lz4 w (LZ4_decompress_safe block (to_int n) (to_int cap)))).
Proof.
  unfold squash_lz4_decompress_buffer, decompress_report, call.
  cbn [bind run]. destruct (fst _ <? 0); reflexivity.
Qed.

Lemma decompress_buffer_calls cap block n options :
  calls w (squash_lz4_decompress_buffer codec cap block n options)
  = [LZ4_decompress_safe block (to_int n) (to_int cap)].
Proof.
  unfold squash_lz4_decompress_buffer, call.
  cbn [bind calls]. destruct (fst _ <? 0); reflexivity.
Qed.

Hypothesis Hint : returns_int w.

(** C5: each compress variant that reaches its primitive returns "buffer
    full" exactly when the size the primitive returned is zero, and "ok"
    otherwise, with the length slot overwritten by that size; no other
    status is returned.  Compress always reaches its primitive;
    CompressUnsafe does when its capacity assertion holds and stops
    otherwise. *)
Theorem compress_status cap src n options :
  (exists c res,
     calls w (squash_lz4_compress_buffer codec cap src n options) = [c] /\
     run w (squash_lz4_compress_buffer codec cap src n options) = Returned res /\
     reports (fst (lz4 w c)) res)
  /\
  (if cap >=? LZ4_COMPRESSBOUND n
   then exists c res,
     calls w (squash_lz4_compress_buffer_unsafe codec cap src n options) = [c] /\
     run w (squash_lz4_compress_buffer_unsafe codec cap src n options) = Returned res /\
     reports (fst (lz4 w c)) res
   else run w (squash_lz4_compress_buffer_unsafe codec cap src n options) = Aborted).
Proof.
  rewrite compress_buffer_calls, compress_buffer_run,
    compress_buffer_unsafe_calls, compress_buffer_unsafe_run.
  split.
  - eexists _, _. split; [reflexivity|]. split; [reflexivity|].
    apply compress_report_reports, Hint.
  - destruct (cap >=? LZ4_COMPRESSBOUND n); [|reflexivity].
    eexists _, _. split; [reflexivity|]. split; [reflexivity|].
    apply compress_report_reports, Hint.
Qed.


End CodecAdapter.

(** ** The adapter over a library that honours its documentation *)

Section WithContract.

Variable w : world.
Hypothesis Hw : contract w.
Variable codec : SquashCodec.

Lemma limited_call_args options src n cap :
  compress_args (limited_call options src n cap)
  = Some (src, to_int n, Some (to_int cap)).
Proof. unfold limited_call. destruct (high_compression options); reflexivity. Qed.

Lemma unbounded_call_args options src n :
  compress_args (unbounded_call options src n) = Some (src, to_int n, None).
Proof. unfold unbounded_call. destruct (high_compression options); reflexivity. Qed.

Lemma supported_dec n : {supported n} + {~ supported n}.
Proof.
  unfold supported.
  destruct (Z_le_dec 0 n); [destruct (Z_le_dec n LZ4_MAX_INPUT_SIZE)|];
    [left|right|right]; lia.
Qed.

(** A compression call that reports a size was given a supported input size
    and stored exactly that many bytes, no more than the worst case. *)
Lemma compress_call_success c s n m :
  compress_args c = Some (s, n, m) ->
  fst (lz4 w c) <> 0 ->
  supported n /\
  0 < fst (lz4 w c) /\
  len (snd (lz4 w c)) = fst (lz4 w c) /\
  fst (lz4 w c) <= LZ4_compressBound n.
Proof.
  intros Hc Hr.
  destruct (supported_dec n) as [Hs|Hs].
  - destruct (compress_result w Hw c s n m Hc) as [H0 H1].
    pose proof (compress_worst_case w Hw c s n m Hc Hs) as H2.
    specialize (H1 Hr). repeat split; try apply Hs; lia.
  - rewrite (compress_unsupported w Hw c s n m Hc Hs) in Hr.
    contradiction Hr. reflexivity.
Qed.

Lemma compress_report_ok r :
  status (compress_report r) = SQUASH_OK -> fst r <> 0.
Proof.
  intros Hs E. unfold compress_report in Hs. cbn [status] in Hs.
  rewrite E in Hs. discriminate Hs.
Qed.

(** C4: the size bound is a total function with a size_t result, and every
    successful Compress of an input leaves a compressed length, which is the
    number of bytes stored, no larger than the bound at the input's
    length. *)
Theorem max_compressed_size_bounds src cap options res :
  is_size_t (len src) ->
  run w (squash_lz4_compress_buffer codec cap src (len src) options)
  = Returned res ->
  status res = SQUASH_OK ->
  is_size_t (squash_lz4_get_max_compressed_size codec (len src)) /\
  len (written res) = length_slot res /\
  length_slot res <= squash_lz4_get_max_compressed_size codec (len src).
Proof.
  intros Hn Hrun Hst. rewrite compress_buffer_run in Hrun.
  injection Hrun as <-.
  set (c := limited_call options src (len src) cap) in *.
  pose proof (result_is_int w Hw c) as Hint.
  pose proof (compress_report_ok _ Hst) as Hr.
  destruct (compress_call_success c _ _ _ (limited_call_args _ _ _ _) Hr)
    as (Hs & Hpos & Hlen & Hb).
  pose proof (bound_truncation _ Hn Hs) as Ht.
  unfold squash_lz4_get_max_compressed_size.
  cbn [compress_report written length_slot].
  rewrite (to_size_t_nonneg_int _ Hint) by lia.
  split; [apply COMPRESSBOUND_size_t|]. split; [exact Hlen|lia].
Qed.

(** C8: CompressUnsafe called with a capacity of exactly the bound at the
    input's length passes its assertion and returns, having stored at most
    that many bytes and reporting a length no larger than the bound. *)
Theorem compress_unsafe_within_bound src options :
  is_size_t (len src) ->
  exists res,
    run w (squash_lz4_compress_buffer_unsafe codec
             (squash_lz4_get_max_compressed_size codec (len src))
             src (len src) options)
    = Returned res /\
    len (written res) <= squash_lz4_get_max_compressed_size codec (len src) /\
    length_slot res <= squash_lz4_get_max_compressed_size codec (len src).
Proof.
  intros Hn. rewrite compress_buffer_unsafe_run.
  unfold squash_lz4_get_max_compressed_size.
  replace (LZ4_COMPRESSBOUND (len src) >=? LZ4_COMPRESSBOUND (len src))
    with true by (symmetry; rewrite Z.geb_leb; apply Z.leb_refl).
  eexists. split; [reflexivity|].
  set (c := unbounded_call options src (len src)).
  pose proof (COMPRESSBOUND_size_t (len src)) as Hb0.
  cbn [compress_report written length_slot].
  destruct (Z.eq_dec (fst (lz4 w c)) 0) as [E|E].
  - rewrite E. change (to_size_t 0) with 0.
    split; [|apply Hb0].
    destruct (supported_dec (to_int (len src))) as [Hs|Hs].
    + pose proof (compress_worst_case w Hw c _ _ _
                    (unbounded_call_args _ _ _) Hs) as H.
      pose proof (bound_truncation _ Hn Hs). lia.
    + rewrite (compress_unsupported w Hw c _ _ _
                 (unbounded_call_args _ _ _) Hs).
      change (len (snd (0, @nil byte))) with 0. apply Hb0.
  - destruct (compress_call_success c _ _ _ (unbounded_call_args _ _ _) E)
      as (Hs & Hpos & Hlen & Hb).
    pose proof (bound_truncation _ Hn Hs) as Ht.
    pose proof (result_is_int w Hw c) as Hint.
    rewrite (to_size_t_nonneg_int _ Hint) by lia.
    lia.
Qed.

(** A successful Decompress reports a length, and stored a number of
    bytes, no larger than the capacity as the primitive saw it. *)
Lemma decompress_within_capacity cap block n options res :
  run w (squash_lz4_decompress_buffer codec cap block n options)
  = Returned res ->
  status res = SQUASH_OK ->
  len (written res) <= to_int cap /\ 0 <= length_slot res <= to_int cap.
Proof.
  intros Hrun Hst. rewrite decompress_buffer_run in Hrun.
  injection Hrun as <-. unfold decompress_report in *.
  set (c := LZ4_decompress_safe block (to_int n) (to_int cap)) in *.
  pose proof (result_is_int w Hw c) as Hint.
  destruct (decompress_result w Hw block (to_int n) (to_int cap)) as [Hl H].
  fold c in Hl, H.
  destruct (fst (lz4 w c) <? 0) eqn:E; [discriminate Hst|].
  apply Z.ltb_ge in E. specialize (H E).
  cbn [written length_slot].
  rewrite (to_size_t_nonneg_int _ Hint E). lia.
Qed.

(** Round trip, where no length is changed by its conversion to int: a
    successful Compress of an input of a supported length, decompressed into
    a capacity that holds it and fits an int, gives the input back. *)
Lemma round_trip_in_int_range src cap_c cap_d options res :
  len src <= LZ4_MAX_INPUT_SIZE ->
  len src <= cap_d <= INT_MAX ->
  run w (squash_lz4_compress_buffer codec cap_c src (len src) options)
  = Returned res ->
  status res = SQUASH_OK ->
  run w (squash_lz4_decompress_buffer codec cap_d
           (written res) (length_slot res) options)
  = Returned {| status := SQUASH_OK; length_slot := len src; written := src |}.
Proof.
  intros Hn Hcap Hrun Hst. rewrite compress_buffer_run in Hrun.
  injection Hrun as <-.
  set (c := limited_call options src (len src) cap_c) in *.
  pose proof (result_is_int w Hw c) as Hint.
  pose proof (compress_report_ok _ Hst) as Hr.
  pose proof (len_nonneg src) as Hl.
  assert (Hin : to_int (len src) = len src).
  { apply to_int_small.
    unfold is_int, INT_MIN, INT_MAX, LZ4_MAX_INPUT_SIZE in *. lia. }
  pose proof (limited_call_args options src (len src) cap_c) as Hargs.
  fold c in Hargs. rewrite Hin in Hargs.
  destruct (compress_call_success c _ _ _ Hargs Hr) as (Hs & Hpos & Hlen & Hb).
  assert (Hslot : to_int (to_size_t (fst (lz4 w c))) = fst (lz4 w c)).
  { rewrite (to_size_t_nonneg_int _ Hint) by lia.
    apply to_int_small. exact Hint. }
  assert (Hcd : to_int cap_d = cap_d).
  { apply to_int_small. unfold is_int, INT_MIN, INT_MAX in *. lia. }
  assert (Hfirst : firstn (Z.to_nat (fst (lz4 w c))) (snd (lz4 w c))
                   = snd (lz4 w c)).
  { apply firstn_all2. unfold len in Hlen. lia. }
  pose proof (decompress_compress w Hw c src (len src) _
                (snd (lz4 w c)) cap_d Hargs Hr (Z.le_refl _) Hfirst Hcap) as Hd.
  unfold squash_lz4_decompress_buffer, call. cbn [bind run].
  cbn [compress_report written length_slot]. rewrite Hslot, Hcd, Hd.
  cbn [fst snd].
  replace (len src <? 0) with false by (symmetry; apply Z.ltb_ge; lia).
  cbn [run]. f_equal. f_equal.
  - apply to_size_t_small.
    unfold is_size_t, SIZE_MAX, LZ4_MAX_INPUT_SIZE in *. lia.
  - unfold len. rewrite Nat2Z.id. apply firstn_all.
Qed.

(** A capacity whose conversion to int is not positive lets no byte
    through, whatever the capacity was as a size_t: with any library that
    honours its documentation, no input but the empty one comes back. *)
Lemma decompress_capacity_wraps cap block n options res :
  to_int cap <= 0 ->
  run w (squash_lz4_decompress_buffer codec cap block n options)
  = Returned res ->
  written res = [].
Proof.
  intros Hcap Hrun. rewrite decompress_buffer_run in Hrun.
  injection Hrun as <-.
  destruct (decompress_result w Hw block (to_int n) (to_int cap)) as [H _].
  assert (Hw0 : snd (lz4 w (LZ4_decompress_safe block (to_int n) (to_int cap)))
                = []) by (apply len_zero; lia).
  unfold decompress_report. destruct (fst _ <? 0); exact Hw0.
Qed.

End WithContract.

(** ** Registration *)

Section Registration.

(** C7: registration returns "ok" exactly when the codec's name is "lz4",
    compared character by character (so that "LZ4" is another name), and
    then the six slots hold the six functions of this file; for any other
    name it returns "unable to load" and leaves the table alone. *)
Theorem plugin_init_codec_registers codec funcs :
  c_string (squash_codec_get_name codec) = true ->
  squash_plugin_init_codec codec funcs
  = if String.eqb (squash_codec_get_name codec) "lz4"
    then (SQUASH_OK, lz4_funcs)
    else (SQUASH_UNABLE_TO_LOAD, funcs).
Proof.
  intros Hname. unfold squash_plugin_init_codec.
  pose proof (strcmp_eq "lz4" (squash_codec_get_name codec) eq_refl Hname) as H.
  destruct (strcmp "lz4" (squash_codec_get_name codec) =? 0) eqn:E.
  - apply Z.eqb_eq in E. apply H in E. rewrite <- E. reflexivity.
  - apply Z.eqb_neq in E.
    destruct (String.eqb_spec (squash_codec_get_name codec) "lz4") as [F|F].
    + contradiction E. apply H. symmetry. exact F.
    + reflexivity.
Qed.

Example plugin_init_codec_upper_case :
  squash_plugin_init_codec {| codec_name := "LZ4" |} no_funcs
  = (SQUASH_UNABLE_TO_LOAD, no_funcs).
Proof. reflexivity. Qed.

End Registration.

(** ** The adapter on the reference library *)

Section Reference.

Import RefLZ4 RefLZ4Facts.

Example compress_then_decompress :
  run (ref_world true)
      (squash_lz4_compress_buffer lz4_codec 19 [x41; x42; x43] 3 (Some hc_options))
  = Returned {| status := SQUASH_OK; length_slot := 4;
                written := [x30; x41; x42; x43] |} /\
  run (ref_world true)
      (squash_lz4_decompress_buffer lz4_codec 3 [x30; x41; x42; x43] 4 None)
  = Returned {| status := SQUASH_OK; length_slot := 3;
                written := [x41; x42; x43] |}.
Proof. split; reflexivity. Qed.

Example compress_empty :
  run (ref_world true) (squash_lz4_compress_buffer lz4_codec 16 [] 0 None)
  = Returned {| status := SQUASH_OK; length_slot := 1; written := [x00] |} /\
  run (ref_world true) (squash_lz4_decompress_buffer lz4_codec 0 [x00] 1 None)
  = Returned {| status := SQUASH_OK; length_slot := 0; written := [] |}.
Proof. split; reflexivity. Qed.

Example compress_undersized :
  run (ref_world true)
      (squash_lz4_compress_buffer lz4_codec 1 [x41; x42; x43] 3 None)
  = Returned {| status := SQUASH_BUFFER_FULL; length_slot := 0; written := [] |}.
Proof. reflexivity. Qed.

Example decompress_truncated :
  run (ref_world true)
      (squash_lz4_decompress_buffer lz4_codec 16 [x30; x41; x42] 3 None)
  = Returned {| status := SQUASH_FAILED; length_slot := 16; written := [] |}.
Proof. reflexivity. Qed.

Example compress_unsafe_undersized :
  run (ref_world true)
      (squash_lz4_compress_buffer_unsafe lz4_codec 18 [x41; x42; x43] 3 None)
  = Aborted.
Proof. reflexivity. Qed.

Lemma compress_status_witness :
  (exists c res,
     calls (ref_world true)
       (squash_lz4_compress_buffer lz4_codec 19 [x41; x42; x43] 3
          (Some hc_options)) = [c] /\
     run (ref_world true)
       (squash_lz4_compress_buffer lz4_codec 19 [x41; x42; x43] 3
          (Some hc_options)) = Returned res /\
     reports (fst (lz4 (ref_world true) c)) res)
  /\
  (exists c res,
     calls (ref_world true)
       (squash_lz4_compress_buffer_unsafe lz4_codec 19 [x41; x42; x43] 3
          (Some hc_options)) = [c] /\
     run (ref_world true)
       (squash_lz4_compress_buffer_unsafe lz4_codec 19 [x41; x42; x43] 3
          (Some hc_options)) = Returned res /\
     reports (fst (lz4 (ref_world true) c)) res).
Proof.
  apply (compress_status (ref_world true) lz4_codec exec_int
           19 [x41; x42; x43] 3 (Some hc_options)).
Defined.


Lemma max_compressed_size_bounds_witness :
  is_size_t (squash_lz4_get_max_compressed_size lz4_codec 3) /\
  len [x30; x41; x42; x43] = 4 /\
  4 <= squash_lz4_get_max_compressed_size lz4_codec 3.
Proof.
  apply (max_compressed_size_bounds
           (ref_world true) (ref_world_contract true)
           lz4_codec [x41; x42; x43] 100 None
           {| status := SQUASH_OK; length_slot := 4;
              written := [x30; x41; x42; x43] |}).
  - unfold is_size_t, SIZE_MAX, len. simpl. lia.
  - reflexivity.
  - reflexivity.
Defined.

Lemma compress_unsafe_within_bound_witness :
  exists res,
    run (ref_world true)
      (squash_lz4_compress_buffer_unsafe lz4_codec
         19 [x41; x42; x43] 3 (Some hc_options))
    = Returned res /\
    len (written res) <= 19 /\ length_slot res <= 19.
Proof.
  apply (compress_unsafe_within_bound
           (ref_world true) (ref_world_contract true)
           lz4_codec [x41; x42; x43]).
  unfold is_size_t, SIZE_MAX, len. simpl. lia.
Defined.

Lemma plugin_init_codec_registers_witness :
  squash_plugin_init_codec lz4_codec no_funcs = (SQUASH_OK, lz4_funcs).
Proof.
  apply (plugin_init_codec_registers lz4_codec no_funcs).
  reflexivity.
Defined.

(** C1, at an input where the code departs from it: the one-byte input "A"
    is compressed successfully, and the result is decompressed into a
    buffer of 4294967296 bytes, far more than the one byte needed; the
    capacity becomes 0 when converted to int, the primitive reports that
    the output does not fit, and Decompress fails instead of returning the
    input. *)
Theorem round_trip_fails_at_4GiB_capacity :
  exists c,
    run (ref_world true)
        (squash_lz4_compress_buffer lz4_codec 19 [x41] (len [x41]) None)
    = Returned c /\
    status c = SQUASH_OK /\
    len [x41] <= 4294967296 <= SIZE_MAX /\
    run (ref_world true)
        (squash_lz4_decompress_buffer lz4_codec
           4294967296 (written c) (length_slot c) None)
    = Returned {| status := SQUASH_FAILED;
                  length_slot := 4294967296;
                  written := [] |}.
Proof.
  eexists. split; [reflexivity|]. split; [reflexivity|].
  split; [unfold len, SIZE_MAX; simpl; lia|]. reflexivity.
Qed.

(** The input length is converted in the same way: of an input of
    4294967296 bytes Compress sees none, and what comes back from a buffer
    large enough for the whole input is the empty sequence. *)
Lemma round_trip_loses_long_input src :
  len src = 4294967296 ->
  run (ref_world true)
      (squash_lz4_compress_buffer lz4_codec 19 src (len src) None)
  = Returned {| status := SQUASH_OK; length_slot := 1; written := [x00] |} /\
  run (ref_world true)
      (squash_lz4_decompress_buffer lz4_codec (len src) [x00] 1 None)
  = Returned {| status := SQUASH_OK; length_slot := 0; written := [] |}.
Proof. intros ->. split; reflexivity. Qed.

(** The round trip is therefore not a property of every capacity that holds
    the input, even over a library that honours its documentation. *)
Lemma round_trip_not_universal :
  ~ (forall w : world, contract w ->
     forall src cap_c cap_d options c,
       is_size_t cap_d -> len src <= cap_d ->
       run w (squash_lz4_compress_buffer lz4_codec cap_c src (len src) options)
       = Returned c ->
       status c = SQUASH_OK ->
       run w (squash_lz4_decompress_buffer lz4_codec cap_d
                (written c) (length_slot c) options)
       = Returned {| status := SQUASH_OK;
                     length_slot := len src;
                     written := src |}).
Proof.
  intros H.
  specialize (H (ref_world true) (ref_world_contract true)
                [x41] 19 4294967296 None
                {| status := SQUASH_OK; length_slot := 2;
                   written := [x10; x41] |}).
  assert (Hc : is_size_t 4294967296) by (unfold is_size_t, SIZE_MAX; lia).
  assert (Hl : len [x41] <= 4294967296) by (unfold len; simpl; lia).
  specialize (H Hc Hl eq_refl eq_refl). vm_compute in H. discriminate H.
Qed.

End Reference.

(** * Further properties of the adapter *)

(** ** Parse *)

Section ParseFurther.

Lemma lowercase_level_not_other key :
  c_string key = true ->
  (strcasecmp key "level" =? 0) = true <-> lowercase key = "level"%string.
Proof.
  intros Hk. rewrite Z.eqb_eq. apply strcasecmp_level. exact Hk.
Qed.

(** X1: the status of Parse, in terms of the key in lower case and of the
    integer read from the value, when that integer fits an int: "ok" exactly
    for the key "level" with a value read to its end as 1 or 9 (the flag is
    then set for 9 and cleared for 1), "bad value" exactly for the key
    "level" with any other value, "bad parameter" exactly for any other
    key. *)
Theorem parse_option_status_table opts key value :
  c_string key = true ->
  is_int (fst (strtol value 0)) ->
  exists st opts',
    squash_lz4_parse_option (Some opts) key value = Ret (st, opts') /\
    (st = SQUASH_OK <->
       lowercase key = "level"%string /\
       at_terminator (snd (strtol value 0)) = true /\
       (fst (strtol value 0) = 1 \/ fst (strtol value 0) = 9)) /\
    (st = SQUASH_BAD_VALUE <->
       lowercase key = "level"%string /\
       ~ (at_terminator (snd (strtol value 0)) = true /\
          (fst (strtol value 0) = 1 \/ fst (strtol value 0) = 9))) /\
    (st = SQUASH_BAD_PARAM <-> lowercase key <> "level"%string) /\
    (st = SQUASH_OK -> hc opts' = (fst (strtol value 0) =? 9)).
Proof.
  intros Hk Hr. pose proof (lowercase_level_not_other key Hk) as Hkey.
  rewrite parse_option_cases. cbn zeta. rewrite (to_int_small _ Hr).
  set (parsed := fst (strtol value 0)) in *.
  set (whole := at_terminator (snd (strtol value 0))) in *.
  assert (Hv : whole && ((parsed =? 1) || (parsed =? 9)) = true <->
               whole = true /\ (parsed = 1 \/ parsed = 9)).
  { rewrite andb_true_iff, orb_true_iff, !Z.eqb_eq. tauto. }
  destruct (strcasecmp key "level" =? 0) eqn:K.
  - assert (Hl : lowercase key = "level"%string) by (apply Hkey; reflexivity).
    destruct (whole && ((parsed =? 1) || (parsed =? 9))) eqn:V.
    + assert (Hok := proj1 Hv eq_refl).
      eexists _, _. split; [reflexivity|].
      repeat split; try tauto; try discriminate.
    + assert (Hno : ~ (whole = true /\ (parsed = 1 \/ parsed = 9))).
      { intros H. apply Hv in H. discriminate H. }
      eexists _, _. split; [reflexivity|].
      repeat split; try tauto; try discriminate.
  - assert (Hl : lowercase key <> "level"%string).
    { intros H. apply Hkey in H. discriminate H. }
    eexists _, _. split; [reflexivity|].
    repeat split; try tauto; try discriminate.
Qed.

Lemma parse_option_status_table_witness :
  exists st opts',
    squash_lz4_parse_option (Some fast_options) "LeVeL" "9" = Ret (st, opts') /\
    (st = SQUASH_OK <->
       lowercase "LeVeL" = "level"%string /\
       at_terminator (snd (strtol "9" 0)) = true /\
       (fst (strtol "9" 0) = 1 \/ fst (strtol "9" 0) = 9)) /\
    (st = SQUASH_BAD_VALUE <->
       lowercase "LeVeL" = "level"%string /\
       ~ (at_terminator (snd (strtol "9" 0)) = true /\
          (fst (strtol "9" 0) = 1 \/ fst (strtol "9" 0) = 9))) /\
    (st = SQUASH_BAD_PARAM <-> lowercase "LeVeL" <> "level"%string) /\
    (st = SQUASH_OK -> hc opts' = (fst (strtol "9" 0) =? 9)).
Proof.
  apply (parse_option_status_table fast_options "LeVeL" "9").
  - reflexivity.
  - vm_compute. split; discriminate.
Defined.

(** What [strtol] makes of a string does not change when white space is put
    in front, except that a string without digits is handed back whole. *)
Lemma strtol_leading_space c s base :
  isspace c = true ->
  strtol (String c s) base = strtol s base \/
  (strtol (String c s) base = (0, String c s) /\ strtol s base = (0, s)).
Proof.
  intros Hc. unfold strtol. cbn [skip_space]. rewrite Hc.
  set (s1 := skip_space s).
  destruct (match s1 with
            | String "-"%char r => (true, r)
            | String "+"%char r => (false, r)
            | _ => (false, s1)
            end) as [neg s2].
  destruct (match s2 with
            | String "0"%char (String x (String d r)) =>
                if ((base =? 0) || (base =? 16))
                   && ((code x =? 120) || (code x =? 88)) && is_digit 16 d
                then (16, String d r)
                else (if base =? 0 then 8 else base, s2)
            | String "0"%char _ => (if base =? 0 then 8 else base, s2)
            | _ => (if base =? 0 then 10 else base, s2)
            end) as [b s3].
  destruct (scan_digits b 0 0 s3) as [[mag count] rest].
  destruct count; [right; split; reflexivity|left; reflexivity].
Qed.

(** X2: white space in front of the value is ignored: Parse gives the same
    status and the same options with and without it. *)
Theorem parse_option_leading_space options key c value :
  isspace c = true ->
  squash_lz4_parse_option options key (String c value)
  = squash_lz4_parse_option options key value.
Proof.
  intros Hc. destruct options as [opts|]; [|reflexivity].
  rewrite !parse_option_cases. cbn zeta.
  destruct (strcasecmp key "level" =? 0); [|reflexivity].
  destruct (strtol_leading_space c value 0 Hc) as [E|[E1 E2]].
  - rewrite E. reflexivity.
  - rewrite E1, E2. cbn [fst snd].
    change (to_int 0) with 0. cbn [Z.eqb orb].
    rewrite !andb_false_r. reflexivity.
Qed.

Lemma parse_option_leading_space_witness :
  squash_lz4_parse_option (Some fast_options) "level" " 9"
  = squash_lz4_parse_option (Some fast_options) "level" "9".
Proof.
  apply (parse_option_leading_space (Some fast_options) "level" " "%char "9").
  reflexivity.
Defined.

(** X3: the status of Parse does not depend on the options it is given, and
    a successful Parse overwrites what an earlier Parse did: after any first
    call, a second call returns the status it would return on the original
    options; when it succeeds the options are those it would produce from
    the original ones, and when it fails they are those the first call
    left. *)
Theorem parse_option_last_wins opts key1 value1 key2 value2 :
  exists st1 o1 st2 o2 o2',
    squash_lz4_parse_option (Some opts) key1 value1 = Ret (st1, o1) /\
    squash_lz4_parse_option (Some o1) key2 value2 = Ret (st2, o2) /\
    squash_lz4_parse_option (Some opts) key2 value2 = Ret (st2, o2') /\
    ((st2 = SQUASH_OK /\ o2 = o2') \/
     (st2 <> SQUASH_OK /\ o2 = o1 /\ o2' = opts)).
Proof.
  assert (H1 : exists st1 o1,
             squash_lz4_parse_option (Some opts) key1 value1 = Ret (st1, o1)
             /\ base_object o1 = base_object opts).
  { rewrite parse_option_cases.
    destruct (strcasecmp key1 "level" =? 0); cbn zeta;
      [destruct (at_terminator _ && _)|];
      eexists _, _; split; reflexivity. }
  destruct H1 as (st1 & o1 & E1 & Hb).
  exists st1, o1. rewrite E1, !parse_option_cases.
  destruct (strcasecmp key2 "level" =? 0); cbn zeta.
  - destruct (at_terminator _ && _).
    + eexists _, _, _. repeat split. left. split; [reflexivity|].
      unfold set_hc. rewrite Hb. reflexivity.
    + eexists _, _, _. repeat split. right. repeat split. discriminate.
  - eexists _, _, _. repeat split. right. repeat split. discriminate.
Qed.

End ParseFurther.

(** ** From the options to the primitive *)

Section Selection.

Variable w : world.
Variable codec : SquashCodec.

(** X4: a successful Parse of a level decides the primitive of the calls
    that follow: with the key "level" in any mix of cases and a value read
    to its end as 1 or 9, Parse succeeds, and afterwards Compress and
    CompressUnsafe (its assertion holding) call the high-compression
    primitive when the level was 9 and the fast one when it was 1. *)
Theorem parse_level_selects_variant opts key value cap src n :
  c_string key = true ->
  lowercase key = "level"%string ->
  at_terminator (snd (strtol value 0)) = true ->
  fst (strtol value 0) = 1 \/ fst (strtol value 0) = 9 ->
  exists opts',
    squash_lz4_parse_option (Some opts) key value = Ret (SQUASH_OK, opts') /\
    calls w (squash_lz4_compress_buffer codec cap src n (Some opts'))
    = [if fst (strtol value 0) =? 9
       then LZ4_compressHC_limitedOutput src (to_int n) (to_int cap)
       else LZ4_compress_limitedOutput src (to_int n) (to_int cap)] /\
    calls w (squash_lz4_compress_buffer_unsafe codec cap src n (Some opts'))
    = if cap >=? LZ4_COMPRESSBOUND n
      then [if fst (strtol value 0) =? 9
            then LZ4_compressHC src (to_int n)
            else LZ4_compress src (to_int n)]
      else [].
Proof.
  intros Hk Hl Hend Hv.
  assert (Hint : is_int (fst (strtol value 0))).
  { unfold is_int, INT_MIN, INT_MAX. lia. }
  rewrite parse_option_cases. cbn zeta. rewrite (to_int_small _ Hint).
  replace (strcasecmp key "level" =? 0) with true
    by (symmetry; apply lowercase_level_not_other; assumption).
  rewrite Hend.
  replace ((fst (strtol value 0) =? 1) || (fst (strtol value 0) =? 9))
    with true
    by (symmetry; apply orb_true_iff; rewrite !Z.eqb_eq; exact Hv).
  cbn [andb]. eexists. split; [reflexivity|].
  rewrite compress_buffer_calls, compress_buffer_unsafe_calls.
  unfold limited_call, unbounded_call, high_compression, set_hc. cbn [hc].
  split; reflexivity.
Qed.

(** X5: options fresh from Create select the fast primitive: when the
    allocator returns a block, Create returns options with which Compress
    calls LZ4_compress_limitedOutput and CompressUnsafe (its assertion
    holding) calls LZ4_compress. *)
Theorem created_options_select_fast cap src n :
  malloc_ok w = true ->
  exists opts,
    run w (squash_lz4_create_options codec) = Returned (Some opts) /\
    calls w (squash_lz4_compress_buffer codec cap src n (Some opts))
    = [LZ4_compress_limitedOutput src (to_int n) (to_int cap)] /\
    calls w (squash_lz4_compress_buffer_unsafe codec cap src n (Some opts))
    = if cap >=? LZ4_COMPRESSBOUND n
      then [LZ4_compress src (to_int n)]
      else [].
Proof.
  intros Hm. exists (initial_options codec).
  unfold squash_lz4_create_options, squash_lz4_options_new, malloc.
  cbn [bind run]. rewrite Hm. split; [reflexivity|].
  rewrite compress_buffer_calls, compress_buffer_unsafe_calls.
  split; reflexivity.
Qed.

End Selection.

Lemma parse_level_selects_variant_witness :
  exists opts',
    squash_lz4_parse_option (Some fast_options) "Level" "0x9"
    = Ret (SQUASH_OK, opts') /\
    calls (RefLZ4.ref_world true)
      (squash_lz4_compress_buffer lz4_codec 19 [x41; x42; x43] 3 (Some opts'))
    = [LZ4_compressHC_limitedOutput [x41; x42; x43] 3 19] /\
    calls (RefLZ4.ref_world true)
      (squash_lz4_compress_buffer_unsafe lz4_codec 19 [x41; x42; x43] 3
         (Some opts'))
    = [LZ4_compressHC [x41; x42; x43] 3].
Proof.
  apply (parse_level_selects_variant (RefLZ4.ref_world true) lz4_codec
           fast_options "Level" "0x9" 19 [x41; x42; x43] 3).
  - reflexivity.
  - reflexivity.
  - reflexivity.
  - right. reflexivity.
Defined.

Lemma created_options_select_fast_witness :
  exists opts,
    run (RefLZ4.ref_world true) (squash_lz4_create_options lz4_codec)
    = Returned (Some opts) /\
    calls (RefLZ4.ref_world true)
      (squash_lz4_compress_buffer lz4_codec 19 [x41; x42; x43] 3 (Some opts))
    = [LZ4_compress_limitedOutput [x41; x42; x43] 3 19] /\
    calls (RefLZ4.ref_world true)
      (squash_lz4_compress_buffer_unsafe lz4_codec 19 [x41; x42; x43] 3
         (Some opts))
    = [LZ4_compress [x41; x42; x43] 3].
Proof.
  apply (created_options_select_fast (RefLZ4.ref_world true) lz4_codec
           19 [x41; x42; x43] 3).
  reflexivity.
Defined.

(** ** Capacities and lengths *)

Section Capacities.

Variable w : world.
Hypothesis Hw : contract w.
Variable codec : SquashCodec.

Lemma to_int_within n : 0 <= n -> Z.max 0 (to_int n) <= n.
Proof. unfold to_int. intros H. Z.div_mod_to_equations. lia. Qed.

Lemma pair_zero_nil (r : Z * list byte) :
  fst r = 0 -> snd r = [] -> r = (0, []).
Proof. destruct r as [a b]. cbn. intros -> ->. reflexivity. Qed.

(** X6: Compress stays within the capacity it is given, whatever size_t
    value that is and whether or not it succeeds; when it succeeds, the
    length it reports is positive, is the number of bytes it stored, and is
    no larger than the capacity. *)
Theorem compress_never_exceeds_capacity cap src n options res :
  is_size_t cap ->
  run w (squash_lz4_compress_buffer codec cap src n options) = Returned res ->
  len (written res) <= cap /\
  ((status res = SQUASH_BUFFER_FULL /\ length_slot res = 0) \/
   (status res = SQUASH_OK /\
    0 < length_slot res /\ length_slot res = len (written res))).
Proof.
  intros Hcap Hrun. rewrite compress_buffer_run in Hrun.
  injection Hrun as <-.
  set (c := limited_call options src n cap).
  pose proof (limited_call_args options src n cap) as Hargs. fold c in Hargs.
  pose proof (compress_limited w Hw c _ _ _ Hargs) as Hlim.
  pose proof (to_int_within cap (proj1 Hcap)) as Hle.
  pose proof (result_is_int w Hw c) as Hint.
  cbn [compress_report written status length_slot].
  split; [lia|].
  destruct (Z.eq_dec (fst (lz4 w c)) 0) as [E|E].
  - left. rewrite E. split; reflexivity.
  - right.
    destruct (compress_call_success w Hw c _ _ _ Hargs E)
      as (_ & Hpos & Hlen & _).
    rewrite (to_size_t_nonneg_int _ Hint) by lia.
    replace (fst (lz4 w c) =? 0) with false
      by (symmetry; apply Z.eqb_neq; exact E).
    repeat split; [lia|symmetry; exact Hlen].
Qed.

(** X7: a capacity whose conversion to int is zero or negative (0, but also
    4294967296, or anything from 2147483648 to 4294967295) makes Compress
    report "buffer full" on every input, the empty one included, with
    nothing stored. *)
Theorem compress_without_int_capacity cap src n options :
  to_int cap <= 0 ->
  run w (squash_lz4_compress_buffer codec cap src n options)
  = Returned {| status := SQUASH_BUFFER_FULL;
                length_slot := 0;
                written := [] |}.
Proof.
  intros Hcap. rewrite compress_buffer_run.
  set (c := limited_call options src n cap).
  pose proof (limited_call_args options src n cap) as Hargs. fold c in Hargs.
  pose proof (compress_limited w Hw c _ _ _ Hargs) as Hlim.
  assert (Hout : snd (lz4 w c) = []) by (apply len_zero; lia).
  assert (Hr : fst (lz4 w c) = 0).
  { destruct (Z.eq_dec (fst (lz4 w c)) 0) as [E|E]; [exact E|].
    destruct (compress_call_success w Hw c _ _ _ Hargs E)
      as (_ & Hpos & Hlen & _).
    rewrite Hout in Hlen. change (len []) with 0 in Hlen. lia. }
  rewrite (pair_zero_nil _ Hr Hout). reflexivity.
Qed.

(** X8: an input length whose conversion to int the library does not
    support (negative, as for 2147483648, or above LZ4_MAX_INPUT_SIZE) makes
    both compress variants report "buffer full" with nothing stored;
    CompressUnsafe does so when its assertion holds and stops otherwise. *)
Theorem compress_unsupported_length cap src n options :
  ~ supported (to_int n) ->
  run w (squash_lz4_compress_buffer codec cap src n options)
  = Returned {| status := SQUASH_BUFFER_FULL;
                length_slot := 0;
                written := [] |} /\
  run w (squash_lz4_compress_buffer_unsafe codec cap src n options)
  = if cap >=? LZ4_COMPRESSBOUND n
    then Returned {| status := SQUASH_BUFFER_FULL;
                     length_slot := 0;
                     written := [] |}
    else Aborted.
Proof.
  intros Hs. rewrite compress_buffer_run, compress_buffer_unsafe_run.
  rewrite (compress_unsupported w Hw _ _ _ _
             (limited_call_args options src n cap) Hs).
  rewrite (compress_unsupported w Hw _ _ _ _
             (unbounded_call_args options src n) Hs).
  split; reflexivity.
Qed.

(** X9: Decompress stays within the capacity it is given, whatever size_t
    value that is and whether or not it succeeds: the bytes it stored are
    no more than the capacity, and when it succeeds the length it reports
    is no larger than the capacity either; its status is "ok" or "failed",
    and on "failed" the length slot still holds the capacity. *)
Theorem decompress_never_exceeds_capacity cap block n options res :
  is_size_t cap ->
  run w (squash_lz4_decompress_buffer codec cap block n options)
  = Returned res ->
  len (written res) <= cap /\
  ((status res = SQUASH_FAILED /\ length_slot res = cap) \/
   (status res = SQUASH_OK /\ 0 <= length_slot res <= cap)).
Proof.
  intros Hcap Hrun. rewrite decompress_buffer_run in Hrun.
  injection Hrun as <-.
  set (c := LZ4_decompress_safe block (to_int n) (to_int cap)).
  pose proof (decompress_result w Hw block (to_int n) (to_int cap)) as H.
  cbn zeta in H. fold c in H. destruct H as [Hlim Hok].
  pose proof (to_int_within cap (proj1 Hcap)) as Hle.
  pose proof (result_is_int w Hw c) as Hint.
  unfold decompress_report.
  destruct (fst (lz4 w c) <? 0) eqn:E; cbn [written status length_slot].
  - split; [lia|]. left. split; reflexivity.
  - apply Z.ltb_ge in E. specialize (Hok E).
    rewrite (to_size_t_nonneg_int _ Hint E).
    split; [lia|]. right. split; [reflexivity|lia].
Qed.

End Capacities.

Lemma compress_never_exceeds_capacity_witness :
  len [x30; x41; x42; x43] <= 19 /\
  ((SQUASH_OK = SQUASH_BUFFER_FULL /\ 4 = 0) \/
   (SQUASH_OK = SQUASH_OK /\ 0 < 4 /\ 4 = len [x30; x41; x42; x43])).
Proof.
  apply (compress_never_exceeds_capacity
           (RefLZ4.ref_world true) (RefLZ4Facts.ref_world_contract true)
           lz4_codec 19 [x41; x42; x43] 3 None
           {| status := SQUASH_OK; length_slot := 4;
              written := [x30; x41; x42; x43] |}).
  - unfold is_size_t, SIZE_MAX. lia.
  - reflexivity.
Defined.

Lemma compress_without_int_capacity_witness :
  run (RefLZ4.ref_world true)
      (squash_lz4_compress_buffer lz4_codec 4294967296 [] 0 None)
  = Returned {| status := SQUASH_BUFFER_FULL;
                length_slot := 0;
                written := [] |}.
Proof.
  apply (compress_without_int_capacity
           (RefLZ4.ref_world true) (RefLZ4Facts.ref_world_contract true)
           lz4_codec 4294967296 [] 0 None).
  vm_compute. discriminate.
Defined.

Lemma compress_unsupported_length_witness :
  run (RefLZ4.ref_world true)
      (squash_lz4_compress_buffer lz4_codec 19 [x41] 2147483648 None)
  = Returned {| status := SQUASH_BUFFER_FULL;
                length_slot := 0;
                written := [] |} /\
  run (RefLZ4.ref_world true)
      (squash_lz4_compress_buffer_unsafe lz4_codec 19 [x41] 2147483648 None)
  = Returned {| status := SQUASH_BUFFER_FULL;
                length_slot := 0;
                written := [] |}.
Proof.
  apply (compress_unsupported_length
           (RefLZ4.ref_world true) (RefLZ4Facts.ref_world_contract true)
           lz4_codec 19 [x41] 2147483648 None).
  intros [H _]. vm_compute in H. apply H. reflexivity.
Defined.

Lemma decompress_never_exceeds_capacity_witness :
  len [x41; x42; x43] <= 10 /\
  ((SQUASH_OK = SQUASH_FAILED /\ 3 = 10) \/
   (SQUASH_OK = SQUASH_OK /\ 0 <= 3 <= 10)).
Proof.
  apply (decompress_never_exceeds_capacity
           (RefLZ4.ref_world true) (RefLZ4Facts.ref_world_contract true)
           lz4_codec 10 [x30; x41; x42; x43] 4 None
           {| status := SQUASH_OK; length_slot := 3;
              written := [x41; x42; x43] |}).
  - unfold is_size_t, SIZE_MAX. lia.
  - reflexivity.
Defined.

(** ** Round trips *)

Section RoundTrips.

Variable w : world.
Hypothesis Hw : contract w.
Variable codec : SquashCodec.

Lemma supported_to_int n : 0 <= n <= LZ4_MAX_INPUT_SIZE -> to_int n = n.
Proof.
  intros H. apply to_int_small.
  unfold is_int, INT_MIN, INT_MAX, LZ4_MAX_INPUT_SIZE in *. lia.
Qed.

(** What a compression call produced from a whole input, left at the head
    of a buffer, is decompressed to that input. *)
Lemma decompress_compressed_block c src m junk cap_d options :
  compress_args c = Some (src, len src, m) ->
  fst (lz4 w c) <> 0 ->
  len src <= cap_d <= INT_MAX ->
  run w (squash_lz4_decompress_buffer codec cap_d
           (snd (lz4 w c) ++ junk) (to_size_t (fst (lz4 w c))) options)
  = Returned {| status := SQUASH_OK; length_slot := len src; written := src |}.
Proof.
  intros Hargs Hr Hcap.
  pose proof (result_is_int w Hw c) as Hint.
  pose proof (len_nonneg src) as Hl.
  destruct (compress_call_success w Hw c _ _ _ Hargs Hr)
    as (Hs & Hpos & Hlen & Hb).
  assert (Hslot : to_int (to_size_t (fst (lz4 w c))) = fst (lz4 w c)).
  { rewrite (to_size_t_nonneg_int _ Hint) by lia.
    apply to_int_small. exact Hint. }
  assert (Hcd : to_int cap_d = cap_d).
  { apply to_int_small. unfold is_int, INT_MIN, INT_MAX in *. lia. }
  assert (Hfirst : firstn (Z.to_nat (fst (lz4 w c))) (snd (lz4 w c) ++ junk)
                   = snd (lz4 w c)).
  { replace (Z.to_nat (fst (lz4 w c))) with (List.length (snd (lz4 w c)))
      by (unfold len in Hlen; lia).
    rewrite firstn_app, Nat.sub_diag, firstn_all. cbn [firstn].
    apply app_nil_r. }
  pose proof (decompress_compress w Hw c src (len src) m
                (snd (lz4 w c) ++ junk) cap_d Hargs Hr (Z.le_refl _)
                Hfirst Hcap) as Hd.
  rewrite decompress_buffer_run, Hslot, Hcd, Hd.
  unfold decompress_report. cbn [fst snd].
  replace (len src <? 0) with false by (symmetry; apply Z.ltb_ge; lia).
  f_equal. f_equal.
  - apply to_size_t_nonneg_int; [|lia].
    unfold supported, LZ4_MAX_INPUT_SIZE in Hs.
    unfold is_int, INT_MIN, INT_MAX. lia.
  - unfold len. rewrite Nat2Z.id. apply firstn_all.
Qed.

(** X10: what a successful Compress stored and reported is decompressed to
    the input, for an input of a supported length and a decompress capacity
    that holds it and fits an int; this is so whichever options the two
    calls are given, and whatever follows the compressed bytes in the
    buffer handed to Decompress. *)
Theorem round_trip_checked src cap_c cap_d options options' junk res :
  len src <= LZ4_MAX_INPUT_SIZE ->
  len src <= cap_d <= INT_MAX ->
  run w (squash_lz4_compress_buffer codec cap_c src (len src) options)
  = Returned res ->
  status res = SQUASH_OK ->
  run w (squash_lz4_decompress_buffer codec cap_d
           (written res ++ junk) (length_slot res) options')
  = Returned {| status := SQUASH_OK; length_slot := len src; written := src |}.
Proof.
  intros Hn Hcap Hrun Hst. rewrite compress_buffer_run in Hrun.
  injection Hrun as <-.
  pose proof (compress_report_ok _ Hst) as Hr.
  pose proof (limited_call_args options src (len src) cap_c) as Hargs.
  rewrite (supported_to_int (len src)) in Hargs
    by (pose proof (len_nonneg src); lia).
  cbn [compress_report written length_slot].
  apply (decompress_compressed_block _ _ _ _ _ _ Hargs Hr Hcap).
Qed.

(** X11: the same through the unchecked variant: when CompressUnsafe
    returns "ok" (its assertion held), what it stored and reported is
    decompressed to the input. *)
Theorem round_trip_unsafe src cap_c cap_d options options' junk res :
  len src <= LZ4_MAX_INPUT_SIZE ->
  len src <= cap_d <= INT_MAX ->
  run w (squash_lz4_compress_buffer_unsafe codec cap_c src (len src) options)
  = Returned res ->
  status res = SQUASH_OK ->
  run w (squash_lz4_decompress_buffer codec cap_d
           (written res ++ junk) (length_slot res) options')
  = Returned {| status := SQUASH_OK; length_slot := len src; written := src |}.
Proof.
  intros Hn Hcap Hrun Hst. rewrite compress_buffer_unsafe_run in Hrun.
  destruct (cap_c >=? LZ4_COMPRESSBOUND (len src)); [|discriminate Hrun].
  injection Hrun as <-.
  pose proof (compress_report_ok _ Hst) as Hr.
  pose proof (unbounded_call_args options src (len src)) as Hargs.
  rewrite (supported_to_int (len src)) in Hargs
    by (pose proof (len_nonneg src); lia).
  cbn [compress_report written length_slot].
  apply (decompress_compressed_block _ _ _ _ _ _ Hargs Hr Hcap).
Qed.

End RoundTrips.

Lemma round_trip_checked_witness :
  run (RefLZ4.ref_world true)
      (squash_lz4_decompress_buffer lz4_codec 3
         ([x30; x41; x42; x43] ++ [xff; xff]) 4 None)
  = Returned {| status := SQUASH_OK; length_slot := len [x41; x42; x43];
                written := [x41; x42; x43] |}.
Proof.
  apply (round_trip_checked
           (RefLZ4.ref_world true) (RefLZ4Facts.ref_world_contract true)
           lz4_codec [x41; x42; x43] 19 3 (Some hc_options) None [xff; xff]
           {| status := SQUASH_OK; length_slot := 4;
              written := [x30; x41; x42; x43] |}).
  - vm_compute. discriminate.
  - vm_compute. split; discriminate.
  - reflexivity.
  - reflexivity.
Defined.

Lemma round_trip_unsafe_witness :
  run (RefLZ4.ref_world true)
      (squash_lz4_decompress_buffer lz4_codec 3
         ([x30; x41; x42; x43] ++ []) 4 (Some hc_options))
  = Returned {| status := SQUASH_OK; length_slot := len [x41; x42; x43];
                written := [x41; x42; x43] |}.
Proof.
  apply (round_trip_unsafe
           (RefLZ4.ref_world true) (RefLZ4Facts.ref_world_contract true)
           lz4_codec [x41; x42; x43] 19 3 None (Some hc_options) []
           {| status := SQUASH_OK; length_slot := 4;
              written := [x30; x41; x42; x43] |}).
  - vm_compute. discriminate.
  - vm_compute. split; discriminate.
  - reflexivity.
  - reflexivity.
Defined.

(** ** The size bound as a capacity *)

Section BoundAsCapacity.

Variable w : world.
Variable codec : SquashCodec.

(** X12: for every supported input length the bound is the length plus one
    byte per 255 plus 16, exceeds the length, and fits an int; so Compress
    called with the bound as capacity hands the primitive the length and
    the capacity unchanged. *)
Theorem max_compressed_size_as_capacity src n options :
  0 <= n <= LZ4_MAX_INPUT_SIZE ->
  squash_lz4_get_max_compressed_size codec n = n + n / 255 + 16 /\
  n < squash_lz4_get_max_compressed_size codec n <= INT_MAX /\
  calls w (squash_lz4_compress_buffer codec
             (squash_lz4_get_max_compressed_size codec n) src n options)
  = [if high_compression options
     then LZ4_compressHC_limitedOutput src n (n + n / 255 + 16)
     else LZ4_compress_limitedOutput src n (n + n / 255 + 16)].
Proof.
  intros Hn.
  assert (Hb : squash_lz4_get_max_compressed_size codec n = n + n / 255 + 16).
  { unfold squash_lz4_get_max_compressed_size, LZ4_COMPRESSBOUND.
    unfold to_uint, to_size_t, LZ4_MAX_INPUT_SIZE in *.
    replace (n mod 4294967296 >? 2113929216 mod 4294967296) with false.
    - apply Z.mod_small. Z.div_mod_to_equations. lia.
    - symmetry. rewrite Z.gtb_ltb. apply Z.ltb_ge.
      Z.div_mod_to_equations. lia. }
  assert (Hr : n < n + n / 255 + 16 <= INT_MAX).
  { unfold INT_MAX, LZ4_MAX_INPUT_SIZE in *. Z.div_mod_to_equations. lia. }
  rewrite compress_buffer_calls, Hb. unfold limited_call.
  rewrite (to_int_small n), (to_int_small (n + n / 255 + 16)).
  - repeat split; try lia.
  - unfold is_int, INT_MIN, INT_MAX in *. lia.
  - unfold is_int, INT_MIN, INT_MAX, LZ4_MAX_INPUT_SIZE in *. lia.
Qed.

End BoundAsCapacity.

Lemma max_compressed_size_as_capacity_witness :
  squash_lz4_get_max_compressed_size lz4_codec 3 = 3 + 3 / 255 + 16 /\
  3 < squash_lz4_get_max_compressed_size lz4_codec 3 <= INT_MAX /\
  calls (RefLZ4.ref_world true)
    (squash_lz4_compress_buffer lz4_codec
       (squash_lz4_get_max_compressed_size lz4_codec 3) [x41; x42; x43] 3
       (Some hc_options))
  = [LZ4_compressHC_limitedOutput [x41; x42; x43] 3 (3 + 3 / 255 + 16)].
Proof.
  apply (max_compressed_size_as_capacity (RefLZ4.ref_world true) lz4_codec
           [x41; x42; x43] 3 (Some hc_options)).
  unfold LZ4_MAX_INPUT_SIZE. lia.
Defined.

(** ** What the conversions to int let through *)

Section LowBits.

Variable w : world.
Variable codec : SquashCodec.

Lemma to_int_periodic z k : to_int (z + k * 4294967296) = to_int z.
Proof.
  unfold to_int.
  replace (z + k * 4294967296 + 2147483648)
    with (z + 2147483648 + k * 4294967296) by lia.
  rewrite Z.mod_add by lia. reflexivity.
Qed.

(** X13: of a length and of a capacity only the low 32 bits reach the
    primitives: adding any multiple of 4294967296 to the input length or to
    the capacity changes neither the call Compress makes nor what it
    returns, nor the call Decompress makes. *)
Theorem lengths_reach_primitives_modulo_int cap buf n options k j :
  calls w (squash_lz4_compress_buffer codec
             (cap + k * 4294967296) buf (n + j * 4294967296) options)
  = calls w (squash_lz4_compress_buffer codec cap buf n options) /\
  run w (squash_lz4_compress_buffer codec
           (cap + k * 4294967296) buf (n + j * 4294967296) options)
  = run w (squash_lz4_compress_buffer codec cap buf n options) /\
  calls w (squash_lz4_decompress_buffer codec
             (cap + k * 4294967296) buf (n + j * 4294967296) options)
  = calls w (squash_lz4_decompress_buffer codec cap buf n options).
Proof.
  rewrite !compress_buffer_calls, !compress_buffer_run,
    !decompress_buffer_calls.
  unfold limited_call. rewrite !to_int_periodic.
  repeat split.
Qed.

End LowBits.
